(** * AssetContract: the state-based-endorsement asset chaincode

    A shallow embedding of
    [asset-transfer-sbe/chaincode-typescript/src/assetContract.ts]
    together with the parts of its run-time environment the contract
    calls into: [JSON.stringify] / [JSON.parse], [Buffer], the chaincode
    stub ([getState], [putState], [deleteState],
    [setStateValidationParameter]) and fabric-shim's
    [KeyEndorsementPolicy]. *)

From Stdlib Require Import ZArith NArith Ascii String List Lia.
From Stdlib Require Import DecimalPos DecimalN DecimalZ DecimalFacts.
From stdpp Require Import base decidable option list gmap strings.

Local Open Scope string_scope.
Local Open Scope Z_scope.

(** ** Strings and buffers

    A JavaScript string is represented by the UTF-8 encoding of its text,
    one [ascii] per byte.  Transaction arguments reach the contract as
    UTF-8 bytes and are decoded by the dispatcher, so every string the
    contract handles is well-formed text and this representation loses
    nothing.  On it [Buffer.from(s)] and [buffer.toString()] are the
    identity. *)

Abbreviation Buffer := string (only parsing).

Definition Buffer_from (s : string) : Buffer := s.
Definition Buffer_toString (b : Buffer) : string := b.
Definition Buffer_length (b : Buffer) : nat := String.length b.

(** The double quote character, U+0022. *)
Definition dquote : ascii := "034"%char.

(** ** Exceptions *)

(** [Error message] is [new Error(message)], the only exception the
    contract throws itself.  [SyntaxError] and [TypeError] are the
    run-time's.  [OutOfModel] is not a JavaScript exception: it marks an
    input on which this embedding says nothing about the program (a JSON
    text with a fractional number, a nested object, an array, ...). *)
Inductive exn : Type :=
| Error (message : string)
| SyntaxError
| TypeError
| OutOfModel.

Definition result (A : Type) : Type := (exn + A)%type.
Definition Throw {A} (e : exn) : result A := inl e.
Definition Return {A} (a : A) : result A := inr a.

Definition rbind {A B} (r : result A) (k : A -> result B) : result B :=
  match r with
  | inl e => inl e
  | inr a => k a
  end.

Notation "'let*' p := r 'in' k" := (rbind r (fun p => k))
  (at level 10, p pattern, r at level 100, k at level 200,
   format "'[v' 'let*'  p  :=  r  'in'  '/' k ']'").

(** ** Numbers

    The Number values of the embedding are [NaN], the two infinities and
    the safe integers ([Number.isSafeInteger]): every integer of magnitude
    at most 2^53 - 1 is a Number, and [Number::toString] writes it in plain
    decimal digits.  Fractional values and negative zero are not
    represented. *)

Definition MAX_SAFE_INTEGER : Z := 9007199254740991.

Definition isSafeInteger (z : Z) : bool := Z.abs z <=? MAX_SAFE_INTEGER.

Record safe_integer : Type := SafeInteger {
  int_value : Z;
  int_safe : isSafeInteger int_value = true
}.

Inductive number : Type :=
| NaN
| Infinity
| NegInfinity
| Int (i : safe_integer).

Definition Number_isFinite (n : number) : bool :=
  match n with
  | Int _ => true
  | _ => false
  end.

(** The Number with mathematical value [z], when [z] is a safe integer. *)
Definition Number_of_Z (z : Z) : option number :=
  match isSafeInteger z as b return isSafeInteger z = b -> option number with
  | true => fun H => Some (Int (SafeInteger z H))
  | false => fun _ => None
  end eq_refl.

(** Decimal digits, most significant first. *)
Fixpoint string_of_uint (u : Decimal.uint) : string :=
  match u with
  | Decimal.Nil => ""
  | Decimal.D0 u => String "0" (string_of_uint u)
  | Decimal.D1 u => String "1" (string_of_uint u)
  | Decimal.D2 u => String "2" (string_of_uint u)
  | Decimal.D3 u => String "3" (string_of_uint u)
  | Decimal.D4 u => String "4" (string_of_uint u)
  | Decimal.D5 u => String "5" (string_of_uint u)
  | Decimal.D6 u => String "6" (string_of_uint u)
  | Decimal.D7 u => String "7" (string_of_uint u)
  | Decimal.D8 u => String "8" (string_of_uint u)
  | Decimal.D9 u => String "9" (string_of_uint u)
  end.

(** [Number::toString] on a finite Number of the embedding. *)
Definition Number_toString (i : safe_integer) : string :=
  match Z.to_int (int_value i) with
  | Decimal.Pos u => string_of_uint u
  | Decimal.Neg u => String "-" (string_of_uint u)
  end.

(** ** JavaScript values

    The values [JSON.parse] can return, restricted to primitives and to
    objects whose own properties hold primitives.  An object is the list
    of its own enumerable string-keyed properties in creation order; keys
    that are canonical numeric strings (which JavaScript enumerates first)
    are kept out by the parser. *)

Inductive prim : Type :=
| JNull
| JBoolean (b : bool)
| JNumber (n : number)
| JString (s : string).

Abbreviation object := (list (string * prim)) (only parsing).

Inductive value : Type :=
| JPrimitive (p : prim)
| JObject (o : object).

(** [o.k]: the value of own property [k], [None] for [undefined]. *)
Fixpoint Get (o : object) (k : string) : option prim :=
  match o with
  | [] => None
  | (k', v) :: o' => if String.eqb k' k then Some v else Get o' k
  end.

(** [o.k = v] on an ordinary object (also [CreateDataProperty]): an
    existing property keeps its place and takes the new value, a new one
    is appended. *)
Fixpoint SetProperty (o : object) (k : string) (v : prim) : object :=
  match o with
  | [] => [(k, v)]
  | (k', v') :: o' =>
      if String.eqb k' k then (k', v) :: o' else (k', v') :: SetProperty o' k v
  end.

(** ** JSON.stringify *)

Definition hex_digit (n : N) : ascii :=
  match n with
  | 0 => "0" | 1 => "1" | 2 => "2" | 3 => "3" | 4 => "4" | 5 => "5"
  | 6 => "6" | 7 => "7" | 8 => "8" | 9 => "9" | 10 => "a" | 11 => "b"
  | 12 => "c" | 13 => "d" | 14 => "e" | _ => "f"
  end%N%char.

(** One character of [QuoteJSONString]: the two-character escapes, then
    [\u00xx] for the other control characters, everything else as it is
    (bytes from 0x80 up belong to multi-byte characters, which are never
    escaped). *)
Definition QuoteJSONString_char (c : ascii) : string :=
  match N_of_ascii c with
  | 8 => "\b"
  | 9 => "\t"
  | 10 => "\n"
  | 12 => "\f"
  | 13 => "\r"
  | 34 => String "\" (String dquote "")
  | 92 => "\\"
  | n =>
      if (n <? 32)%N
      then "\u00" +:+ String (hex_digit (n / 16)) (String (hex_digit (n mod 16)) "")
      else String c ""
  end%N.

Fixpoint QuoteJSONString_chars (s : string) : string :=
  match s with
  | "" => ""
  | String c s' => QuoteJSONString_char c +:+ QuoteJSONString_chars s'
  end.

Definition QuoteJSONString (s : string) : string :=
  String dquote (QuoteJSONString_chars s +:+ String dquote "").

Definition SerializeJSONProperty (v : prim) : string :=
  match v with
  | JNull => "null"
  | JBoolean true => "true"
  | JBoolean false => "false"
  | JNumber (Int i) => Number_toString i
  | JNumber _ => "null"
  | JString s => QuoteJSONString s
  end.

Definition SerializeJSONMember (m : string * prim) : string :=
  QuoteJSONString m.1 +:+ ":" +:+ SerializeJSONProperty m.2.

Fixpoint SerializeJSONMembers (o : object) : string :=
  match o with
  | [] => ""
  | [m] => SerializeJSONMember m
  | m :: o' => SerializeJSONMember m +:+ "," +:+ SerializeJSONMembers o'
  end.

Definition JSON_stringify (v : value) : string :=
  match v with
  | JPrimitive p => SerializeJSONProperty p
  | JObject o => "{" +:+ SerializeJSONMembers o +:+ "}"
  end.

(** ** JSON.parse *)

Definition is_ws (c : ascii) : bool :=
  match N_of_ascii c with
  | 9 | 10 | 13 | 32 => true
  | _ => false
  end%N.

Fixpoint skip_ws (s : string) : string :=
  match s with
  | "" => ""
  | String c s' => if is_ws c then skip_ws s' else s
  end.

Definition hex_value (c : ascii) : option N :=
  let n := N_of_ascii c in
  if (48 <=? n)%N && (n <=? 57)%N then Some (n - 48)%N
  else if (97 <=? n)%N && (n <=? 102)%N then Some (n - 87)%N
  else if (65 <=? n)%N && (n <=? 70)%N then Some (n - 55)%N
  else None.

Definition hex4 (a b c d : ascii) : option N :=
  match hex_value a, hex_value b, hex_value c, hex_value d with
  | Some x, Some y, Some z, Some w => Some (((x * 16 + y) * 16 + z) * 16 + w)%N
  | _, _, _, _ => None
  end.

(** The UTF-8 bytes of the code unit written by a [\uXXXX] escape.  A
    surrogate has none of its own (it is half of a pair, or ill-formed):
    [None]. *)
Definition utf8_of_code_unit (u : N) : option string :=
  if (u <? 128)%N then Some (String (ascii_of_N u) "")
  else if (u <? 2048)%N then
    Some (String (ascii_of_N (192 + u / 64))
         (String (ascii_of_N (128 + u mod 64)) ""))
  else if (55296 <=? u)%N && (u <? 57344)%N then None
  else
    Some (String (ascii_of_N (224 + u / 4096))
         (String (ascii_of_N (128 + (u / 64) mod 64))
         (String (ascii_of_N (128 + u mod 64)) ""))).

Definition simple_escape (e : ascii) : option ascii :=
  match N_of_ascii e with
  | 34 => Some dquote
  | 92 => Some "\"%char
  | 47 => Some "/"%char
  | 98 => Some "008"%char
  | 102 => Some "012"%char
  | 110 => Some "010"%char
  | 114 => Some "013"%char
  | 116 => Some "009"%char
  | _ => None
  end%N.

(** The characters of a JSON string after its opening quote, up to and
    including the closing quote; returns the string denoted and the rest
    of the text. *)
Fixpoint parse_string_chars (s : string) : result (string * string) :=
  match s with
  | "" => Throw SyntaxError
  | String c rest =>
      if Ascii.eqb c dquote then Return ("", rest)
      else if Ascii.eqb c "\" then
        match rest with
        | "" => Throw SyntaxError
        | String e rest1 =>
            match simple_escape e with
            | Some c' =>
                let* (t, r) := parse_string_chars rest1 in
                Return (String c' t, r)
            | None =>
                if Ascii.eqb e "u" then
                  match rest1 with
                  | String h1 (String h2 (String h3 (String h4 rest2))) =>
                      match hex4 h1 h2 h3 h4 with
                      | None => Throw SyntaxError
                      | Some u =>
                          match utf8_of_code_unit u with
                          | None => Throw OutOfModel
                          | Some bytes =>
                              let* (t, r) := parse_string_chars rest2 in
                              Return (bytes +:+ t, r)
                          end
                      end
                  | _ => Throw SyntaxError
                  end
                else Throw SyntaxError
            end
        end
      else if (N_of_ascii c <? 32)%N then Throw SyntaxError
      else
        let* (t, r) := parse_string_chars rest in
        Return (String c t, r)
  end.

Definition digit_of (c : ascii) : option (Decimal.uint -> Decimal.uint) :=
  match N_of_ascii c with
  | 48 => Some Decimal.D0 | 49 => Some Decimal.D1 | 50 => Some Decimal.D2
  | 51 => Some Decimal.D3 | 52 => Some Decimal.D4 | 53 => Some Decimal.D5
  | 54 => Some Decimal.D6 | 55 => Some Decimal.D7 | 56 => Some Decimal.D8
  | 57 => Some Decimal.D9
  | _ => None
  end%N.

(** The longest run of decimal digits at the head of the text. *)
Fixpoint take_digits (s : string) : Decimal.uint * string :=
  match s with
  | "" => (Decimal.Nil, "")
  | String c s' =>
      match digit_of c with
      | Some d => let '(u, r) := take_digits s' in (d u, r)
      | None => (Decimal.Nil, s)
      end
  end.

Definition starts_fraction_or_exponent (s : string) : bool :=
  match s with
  | String c _ => Ascii.eqb c "." || Ascii.eqb c "e" || Ascii.eqb c "E"
  | "" => false
  end.

(** The digits of a JSON number, after the sign: a single zero or a run of
    digits that does not start with zero, then an optional fraction and
    exponent.  A literal with a fraction or an exponent, minus zero, and
    an integer that is not safe denote Numbers this embedding does not
    have. *)
Definition parse_unsigned (neg : bool) (s : string) : result (prim * string) :=
  let '(u, r) := take_digits s in
  match u with
  | Decimal.Nil => Throw SyntaxError
  | Decimal.D0 (Decimal.D0 _ | Decimal.D1 _ | Decimal.D2 _ | Decimal.D3 _
               | Decimal.D4 _ | Decimal.D5 _ | Decimal.D6 _ | Decimal.D7 _
               | Decimal.D8 _ | Decimal.D9 _) => Throw SyntaxError
  | _ =>
      if starts_fraction_or_exponent r then Throw OutOfModel
      else
        let z := Z.of_int (if neg then Decimal.Neg u else Decimal.Pos u) in
        if neg && (z =? 0) then Throw OutOfModel
        else
          match Number_of_Z z with
          | Some n => Return (JNumber n, r)
          | None => Throw OutOfModel
          end
  end.

(** A JSON number: an optional minus sign, then the digits. *)
Definition parse_number (s : string) : result (prim * string) :=
  match s with
  | String c s' =>
      if Ascii.eqb c "-" then parse_unsigned true s' else parse_unsigned false s
  | "" => parse_unsigned false s
  end.

(** A JSON value that is a primitive. *)
Definition parse_prim (s : string) : result (prim * string) :=
  match s with
  | "" => Throw SyntaxError
  | String c s' =>
      if Ascii.eqb c dquote then
        let* (t, r) := parse_string_chars s' in
        Return (JString t, r)
      else if Ascii.eqb c "-" || bool_decide (is_Some (digit_of c)) then
        parse_number s
      else if Ascii.eqb c "{" || Ascii.eqb c "[" then Throw OutOfModel
      else
        match s with
        | String "n" (String "u" (String "l" (String "l" r))) =>
            Return (JNull, r)
        | String "t" (String "r" (String "u" (String "e" r))) =>
            Return (JBoolean true, r)
        | String "f" (String "a" (String "l" (String "s" (String "e" r)))) =>
            Return (JBoolean false, r)
        | _ => Throw SyntaxError
        end
  end.

(** A key JavaScript would treat as an integer index: [0], or digits with
    no leading zero. *)
Definition is_integer_key (k : string) : bool :=
  match take_digits k with
  | (Decimal.Nil, _) => false
  | (Decimal.D0 Decimal.Nil, "") => true
  | (Decimal.D0 _, _) => false
  | (_, "") => true
  | (_, _) => false
  end.

(** The members of a JSON object after its opening brace, the text
    standing at the start of a member; [acc] holds the properties created
    so far.  Each member consumes at least one character, so the length of
    the text is fuel enough. *)
Fixpoint parse_members (fuel : nat) (acc : object) (s : string)
  : result (object * string) :=
  match fuel with
  | O => Throw OutOfModel
  | S fuel' =>
      match skip_ws s with
      | "" => Throw SyntaxError
      | String c s1 =>
          if Ascii.eqb c dquote then
            let* (k, s2) := parse_string_chars s1 in
            match skip_ws s2 with
            | String ":" s3 =>
                let* (v, s4) := parse_prim (skip_ws s3) in
                if is_integer_key k then Throw OutOfModel
                else
                  let acc' := SetProperty acc k v in
                  match skip_ws s4 with
                  | String "," s5 => parse_members fuel' acc' s5
                  | String "}" s5 => Return (acc', s5)
                  | _ => Throw SyntaxError
                  end
            | _ => Throw SyntaxError
            end
          else Throw SyntaxError
      end
  end.

Definition parse_end (v : value) (s : string) : result value :=
  match skip_ws s with
  | "" => Return v
  | _ => Throw SyntaxError
  end.

Definition JSON_parse (text : string) : result value :=
  match skip_ws text with
  | String "{" s1 =>
      match skip_ws s1 with
      | String "}" s2 => parse_end (JObject []) s2
      | _ =>
          let* (o, s2) := parse_members (String.length text) [] s1 in
          parse_end (JObject o) s2
      end
  | s =>
      let* (p, r) := parse_prim s in
      parse_end (JPrimitive p) r
  end.

(** ** KeyEndorsementPolicy

    fabric-shim's state-based endorsement helper.  The object keeps a
    table from MSP identifier to role, here a finite map.  [addOrgs]
    accepts the role names [MEMBER] and [PEER], throws on any other, and
    enters each organization given with that role; [getPolicy] builds the
    signature policy envelope that lists one principal per organization
    and requires a signature from each of them (an n-out-of rule with n
    the number of organizations). *)

Inductive MSPRoleType : Type := MEMBER | ADMIN | CLIENT | PEER.

Record SignaturePolicyEnvelope : Type := {
  n_out_of : nat;
  identities : gmap string MSPRoleType
}.

Definition new_KeyEndorsementPolicy : gmap string MSPRoleType := ∅.

Definition addOrgs (role : string) (neworgs : list string)
    (orgs : gmap string MSPRoleType) : result (gmap string MSPRoleType) :=
  let* mspRole :=
    (if String.eqb role "MEMBER" then Return MEMBER
     else if String.eqb role "PEER" then Return PEER
     else Throw (Error ("role type " +:+ role +:+ " does not exist"))) in
  Return (foldl (fun orgs neworg => <[neworg := mspRole]> orgs) orgs neworgs).

Definition getPolicy (orgs : gmap string MSPRoleType) : SignaturePolicyEnvelope :=
  {| n_out_of := size orgs; identities := orgs |}.

(** Evaluation of the envelope against the set of organizations that
    endorsed: at least [n_out_of] of the listed principals have signed. *)
Definition satisfied (p : SignaturePolicyEnvelope) (endorsers : gset string) : bool :=
  bool_decide
    (n_out_of p ≤ size (filter (fun org => org ∈ endorsers) (dom (identities p))))%nat.

(** ** The ledger and the chaincode stub

    The world state holds, per key, a value and a validation parameter
    (the key's endorsement policy).  A transaction reads the committed
    world state through the stub and records its writes; reads do not see
    the transaction's own writes.  The writes of a transaction that
    returns are applied in order when it commits; those of a transaction
    that throws are dropped. *)

Record WorldState : Type := {
  state : gmap string Buffer;
  metadata : gmap string SignaturePolicyEnvelope
}.

Record Context : Type := {
  stub : WorldState;
  clientIdentity : string
}.

Inductive write : Type :=
| PutState (key : string) (value : Buffer)
| DelState (key : string)
| SetStateValidationParameter (key : string) (ep : SignaturePolicyEnvelope).

(** A transaction body: given the writes recorded so far, an outcome and
    the writes recorded when it stops. *)
Definition Tx (A : Type) : Type := list write -> result A * list write.

Definition ret {A} (a : A) : Tx A := fun ws => (Return a, ws).
Definition throw {A} (e : exn) : Tx A := fun ws => (Throw e, ws).
Definition lift {A} (r : result A) : Tx A := fun ws => (r, ws).

Definition bind {A B} (m : Tx A) (k : A -> Tx B) : Tx B :=
  fun ws =>
    match m ws with
    | (inl e, ws') => (inl e, ws')
    | (inr a, ws') => k a ws'
    end.

Notation "'let!' p := m 'in' k" := (bind m (fun p => k))
  (at level 10, p pattern, m at level 100, k at level 200,
   format "'[v' 'let!'  p  :=  m  'in'  '/' k ']'").
Notation "'do!' m 'in' k" := (bind m (fun _ => k))
  (at level 10, m at level 100, k at level 200,
   format "'[v' 'do!'  m  'in'  '/' k ']'").

Definition getState (ctx : Context) (key : string) : Tx (option Buffer) :=
  ret (state (stub ctx) !! key).

Definition putState (key : string) (value : Buffer) : Tx unit :=
  fun ws => (Return tt, (ws ++ [PutState key value])%list).

Definition deleteState (key : string) : Tx unit :=
  fun ws => (Return tt, (ws ++ [DelState key])%list).

Definition setStateValidationParameter (key : string)
    (ep : SignaturePolicyEnvelope) : Tx unit :=
  fun ws => (Return tt, (ws ++ [SetStateValidationParameter key ep])%list).

Definition getMSPID (ctx : Context) : string := clientIdentity ctx.

(** ** The contract *)

(** Modelled from the spec: [new Asset()].  The class of [./asset] is
    not among the sources; it declares the four properties [ID], [Value],
    [Owner] and [OwnerOrg] and gives them no initial value, so a fresh
    instance has no own property until the contract assigns them. *)
Definition new_Asset : object := [].

(** [asset.k = v] where [asset] came out of [JSON.parse(...) as Asset]:
    the cast checks nothing.  Class bodies are strict code, where
    assigning a property of a primitive throws. *)
Definition assign (asset : value) (k : string) (v : prim) : result value :=
  match asset with
  | JObject o => Return (JObject (SetProperty o k v))
  | JPrimitive _ => Throw TypeError
  end.

(** [asset.k] read at type [string]; a value of another type is not
    followed further. *)
Definition read_string (asset : value) (k : string) : result string :=
  match asset with
  | JObject o =>
      match Get o k with
      | Some (JString s) => Return s
      | _ => Throw OutOfModel
      end
  | JPrimitive JNull => Throw TypeError
  | JPrimitive _ => Throw OutOfModel
  end.

(** [getClientOrgId] gets the client's OrgId (MSPID). *)
Definition getClientOrgId (ctx : Context) : string := getMSPID ctx.

(** [setAssetStateBasedEndorsement] sets an endorsement policy to the
    [assetId] key. *)
Definition setAssetStateBasedEndorsement (ctx : Context) (assetId : string)
    (ownerOrgs : list string) : Tx unit :=
  let ep := new_KeyEndorsementPolicy in
  let! ep := lift (addOrgs "MEMBER" ownerOrgs ep) in
  setStateValidationParameter assetId (getPolicy ep).

(** [AssetExists] returns true when asset with given ID exists. *)
Definition AssetExists (ctx : Context) (assetId : string) : Tx bool :=
  let! buffer := getState ctx assetId in
  ret (match buffer with
       | Some b => (0 <? Buffer_length b)%nat
       | None => false
       end).

(** [CreateAsset] creates a new asset and sets the endorsement policy of
    the [assetId] key. *)
Definition CreateAsset (ctx : Context) (assetId : string) (value : number)
    (owner : string) : Tx unit :=
  let! exists_ := AssetExists ctx assetId in
  if exists_ : bool then
    throw (Error ("The asset " +:+ assetId +:+ " already exists"))
  else
    let ownerOrg := getClientOrgId ctx in
    let asset := new_Asset in
    let asset := SetProperty asset "ID" (JString assetId) in
    let asset := SetProperty asset "Value" (JNumber value) in
    let asset := SetProperty asset "Owner" (JString owner) in
    let asset := SetProperty asset "OwnerOrg" (JString ownerOrg) in
    let buffer := Buffer_from (JSON_stringify (JObject asset)) in
    do! putState assetId buffer in
    let! ID := lift (read_string (JObject asset) "ID") in
    setAssetStateBasedEndorsement ctx ID [ownerOrg].

(** [ReadAsset] returns asset with given [assetId]. *)
Definition ReadAsset (ctx : Context) (assetId : string) : Tx string :=
  let! exists_ := AssetExists ctx assetId in
  if negb exists_ then
    throw (Error ("The asset " +:+ assetId +:+ " does not exist"))
  else
    let! assetJSON := getState ctx assetId in
    match assetJSON with
    | Some b => ret (Buffer_toString b)
    | None => throw TypeError
    end.

(** [UpdateAsset] updates an existing asset. *)
Definition UpdateAsset (ctx : Context) (assetId : string) (newValue : number)
    : Tx unit :=
  let! assetString := ReadAsset ctx assetId in
  let! asset := lift (JSON_parse assetString) in
  let! asset := lift (assign asset "Value" (JNumber newValue)) in
  let buffer := Buffer_from (JSON_stringify asset) in
  putState assetId buffer.

(** [DeleteAsset] deletes a given asset. *)
Definition DeleteAsset (ctx : Context) (assetId : string) : Tx unit :=
  let! exists_ := AssetExists ctx assetId in
  if negb exists_ then
    throw (Error ("The asset " +:+ assetId +:+ " does not exist"))
  else
    deleteState assetId.

(** [TransferAsset] updates the [Owner] and [OwnerOrg] fields of the asset
    with given [assetId] and re-sets the endorsement policy of the key. *)
Definition TransferAsset (ctx : Context) (assetId : string)
    (newOwner newOwnerOrg : string) : Tx unit :=
  let! assetString := ReadAsset ctx assetId in
  let! asset := lift (JSON_parse assetString) in
  let! asset := lift (assign asset "Owner" (JString newOwner)) in
  let! asset := lift (assign asset "OwnerOrg" (JString newOwnerOrg)) in
  do! putState assetId (Buffer_from (JSON_stringify asset)) in
  let! ID := lift (read_string asset "ID") in
  setAssetStateBasedEndorsement ctx ID [newOwnerOrg].

(** ** The Asset record *)

(** Modelled from the spec: the class [Asset] of [./asset], which is not
    among the sources; a flat record with
    string field [ID], numeric field [Value] and string fields [Owner] and
    [OwnerOrg]. *)
Record Asset : Type := {
  ID : string;
  Value : number;
  Owner : string;
  OwnerOrg : string
}.

(** The object whose own properties are the four fields, in the order in
    which [CreateAsset] assigns them. *)
Definition asset_object (id : string) (v : prim) (owner ownerOrg : string)
    : object :=
  [("ID", JString id); ("Value", v); ("Owner", JString owner);
   ("OwnerOrg", JString ownerOrg)].

Definition Asset_object (a : Asset) : object :=
  asset_object (ID a) (JNumber (Value a)) (Owner a) (OwnerOrg a).

Definition serialize (a : Asset) : string :=
  JSON_stringify (JObject (Asset_object a)).

(** ** Transactions against the ledger *)

Inductive invocation : Type :=
| InvokeCreateAsset (assetId : string) (value : number) (owner : string)
| InvokeReadAsset (assetId : string)
| InvokeUpdateAsset (assetId : string) (newValue : number)
| InvokeDeleteAsset (assetId : string)
| InvokeTransferAsset (assetId newOwner newOwnerOrg : string)
| InvokeAssetExists (assetId : string).

Definition invoke (ctx : Context) (i : invocation) : Tx unit :=
  match i with
  | InvokeCreateAsset assetId value owner => CreateAsset ctx assetId value owner
  | InvokeReadAsset assetId => let! _ := ReadAsset ctx assetId in ret tt
  | InvokeUpdateAsset assetId newValue => UpdateAsset ctx assetId newValue
  | InvokeDeleteAsset assetId => DeleteAsset ctx assetId
  | InvokeTransferAsset assetId newOwner newOwnerOrg =>
      TransferAsset ctx assetId newOwner newOwnerOrg
  | InvokeAssetExists assetId => let! _ := AssetExists ctx assetId in ret tt
  end.

(** The execution context of a transaction submitted by a client of
    organization [mspid] against the world state [w]. *)
Definition context (w : WorldState) (mspid : string) : Context :=
  {| stub := w; clientIdentity := mspid |}.

Section Ledger.

(** Whether the platform drops a key's validation parameter when the key
    is deleted is the platform's business; the contract only calls
    [deleteState].  Everything below holds either way. *)
Variable metadata_deleted_with_key : bool.

Definition apply_write (w : WorldState) (wr : write) : WorldState :=
  match wr with
  | PutState key value =>
      {| state := <[key := value]> (state w); metadata := metadata w |}
  | DelState key =>
      {| state := delete key (state w);
         metadata := if metadata_deleted_with_key
                     then delete key (metadata w) else metadata w |}
  | SetStateValidationParameter key ep =>
      {| state := state w; metadata := <[key := ep]> (metadata w) |}
  end.

Definition commit (w : WorldState) (ws : list write) : WorldState :=
  foldl apply_write w ws.

(** One transaction submitted by a client of organization [mspid]: the
    new world state when the invocation returns, [None] when it
    throws. *)
Definition transact (mspid : string) (i : invocation) (w : WorldState)
    : option WorldState :=
  match invoke (context w mspid) i [] with
  | (inr _, ws) => Some (commit w ws)
  | (inl _, _) => None
  end.

Definition genesis : WorldState := {| state := ∅; metadata := ∅ |}.

(** The world states after any sequence of successful transactions,
    starting from the ledger on which no key is present. *)
Inductive reachable : WorldState -> Prop :=
| reachable_genesis : reachable genesis
| reachable_step w w' mspid i :
    reachable w -> transact mspid i w = Some w' -> reachable w'.

End Ledger.

(** The policy that names the single organization [org]. *)
Definition names_exactly (p : SignaturePolicyEnvelope) (org : string) : Prop :=
  identities p = {[ org := MEMBER ]} /\ n_out_of p = 1%nat.

(** A stored value: the serialized form of an asset-shaped object whose
    [Value] is a finite number or [null]. *)
Definition json_number (v : prim) : Prop :=
  v = JNull \/ exists i, v = JNumber (Int i).

(** The world state is consistent at [key]: what is stored there is an
    asset record whose [ID] is the key, and the key's policy names the
    record's [OwnerOrg]. *)
Definition consistent_at (w : WorldState) (key : string) (b : Buffer) : Prop :=
  exists v owner ownerOrg p,
    json_number v /\
    b = Buffer_from (JSON_stringify (JObject (asset_object key v owner ownerOrg))) /\
    metadata w !! key = Some p /\ names_exactly p ownerOrg.

Definition consistent (w : WorldState) : Prop :=
  forall key b, state w !! key = Some b -> consistent_at w key b.

(** ** Notions used by the statements *)

(** The exceptions the spec calls NotFound and AlreadyExists: the
    contract throws a plain [Error] with these messages. *)
Definition NotFound (assetId : string) : exn :=
  Error ("The asset " +:+ assetId +:+ " does not exist").

Definition AlreadyExists (assetId : string) : exn :=
  Error ("The asset " +:+ assetId +:+ " already exists").

(** No record exists for [key]: the store holds nothing there, or an
    empty value. *)
Definition absent (w : WorldState) (key : string) : Prop :=
  forall b, state w !! key = Some b -> b = "".

(** The characters that follow a member's value inside an object. *)
Definition is_delimiter (d : ascii) : bool :=
  Ascii.eqb d "," || Ascii.eqb d "}".

(** The values that [JSON.stringify] writes in a form [JSON.parse] reads
    back as the same value: all but the Numbers that are not finite. *)
Definition roundtrips (v : prim) : bool :=
  match v with
  | JNumber n => Number_isFinite n
  | _ => true
  end.

(** What [JSON.stringify] makes of a property value: a Number that is
    not finite is written as [null]. *)
Definition normalize (v : prim) : prim :=
  match v with
  | JNumber (Int _) => v
  | JNumber _ => JNull
  | _ => v
  end.

(** The object built by creating the properties [o] one after the other
    on top of [acc]. *)
Definition create_all (acc o : list (string * prim)) : list (string * prim) :=
  foldl (fun acc m => SetProperty acc m.1 m.2) acc o.

(** The record stored under [key], deserialized. *)
Definition record_at (w : WorldState) (key : string)
    : option (list (string * prim)) :=
  match state w !! key with
  | Some b =>
      match JSON_parse (Buffer_toString b) with
      | inr (JObject o) => Some o
      | _ => None
      end
  | None => None
  end.

(** The writes of one operation are a data write and a policy write for
    the same key. *)
Definition paired (ws : list write) (key : string) : Prop :=
  exists b p, ws = [PutState key b; SetStateValidationParameter key p].

(** ** Sample data *)

Definition hundred : number := Int (SafeInteger 100 eq_refl).

(** The ledger after [CreateAsset("asset1", 100, "Alice")] by a client of
    [Org1MSP], starting from the empty ledger. *)
Definition ledger1 : WorldState :=
  commit true genesis
    (CreateAsset (context genesis "Org1MSP") "asset1" hundred "Alice" []).2.

Definition two_hundred : number := Int (SafeInteger 200 eq_refl).

Definition asset_hundred : Asset :=
  {| ID := "asset1"; Value := hundred; Owner := "Alice"; OwnerOrg := "Org1MSP" |}.

Definition asset_infinite : Asset :=
  {| ID := "asset1"; Value := Infinity; Owner := "Alice"; OwnerOrg := "Org1MSP" |}.

(** A world state, not a reachable one, whose record under [key1] carries
    the [ID] [asset1]. *)
Definition misfiled : WorldState :=
  {| state := {[ "key1" := Buffer_from (serialize asset_hundred) ]};
     metadata := ∅ |}.
(** ** Notions used by the further properties *)

(** The key an invocation names. *)
Definition invocation_key (i : invocation) : string :=
  match i with
  | InvokeCreateAsset assetId _ _ => assetId
  | InvokeReadAsset assetId => assetId
  | InvokeUpdateAsset assetId _ => assetId
  | InvokeDeleteAsset assetId => assetId
  | InvokeTransferAsset assetId _ _ => assetId
  | InvokeAssetExists assetId => assetId
  end.

Definition is_create (i : invocation) : bool :=
  match i with
  | InvokeCreateAsset _ _ _ => true
  | _ => false
  end.

(** The property names of an object. *)
Definition keys (o : list (string * prim)) : list string := o.*1.

(** An object [JSON.stringify] writes and [JSON.parse] reads back as it
    is: no property name twice, none an integer key, no Number that is
    not finite. *)
Definition plain_object (o : list (string * prim)) : Prop :=
  NoDup (keys o) /\
  Forall (fun m => roundtrips m.2 = true /\ is_integer_key m.1 = false) o.

(** A record exists for [key]: the store holds a value there that is not
    empty. *)
Definition present (w : WorldState) (key : string) : Prop :=
  exists b, state w !! key = Some b /\ b <> "".

(** The key a write is for. *)
Definition write_key (wr : write) : string :=
  match wr with
  | PutState key _ => key
  | DelState key => key
  | SetStateValidationParameter key _ => key
  end.

(** Every policy of the ledger names a single organization, and, when
    the platform drops the policy of a deleted key ([drop]), belongs to a
    key that holds a record. *)
Definition policies_single (drop : bool) (w : WorldState) : Prop :=
  forall key p,
    metadata w !! key = Some p ->
    (exists org, names_exactly p org) /\ (drop = true -> present w key).

(** The ledger after a second asset is created on [ledger1], by a client
    of [Org2MSP]. *)
Definition ledger2 : WorldState :=
  commit true ledger1
    (CreateAsset (context ledger1 "Org2MSP") "asset2" two_hundred "Carol" []).2.

(** An object with a property the contract does not know and no [Value],
    and a world state, not a reachable one, that stores it. *)
Definition annotated_object : list (string * prim) :=
  [("Note", JString "fragile"); ("ID", JString "asset9");
   ("Owner", JString "Alice"); ("OwnerOrg", JString "Org1MSP")].

Definition annotated : WorldState :=
  {| state := {[ "asset9" :=
                   Buffer_from (JSON_stringify (JObject annotated_object)) ]};
     metadata := ∅ |}.

(** A world state, not a reachable one, whose value under [asset1] is no
    JSON text. *)
Definition garbled : WorldState :=
  {| state := {[ "asset1" := "oops" ]}; metadata := ∅ |}.

(** A JSON text with white space and a repeated key. *)
Definition spaced_text : string :=
  " { " +:+ QuoteJSONString "a" +:+ " : -12 , "
  +:+ QuoteJSONString "b" +:+ ":true,"
  +:+ QuoteJSONString "a" +:+ ":null } ".

(** * Properties of the JSON functions *)

Lemma string_app_cons (x : ascii) (a b : string) :
  String x a +:+ b = String x (a +:+ b).
Proof. reflexivity. Qed.

Lemma string_app_nil (b : string) : "" +:+ b = b.
Proof. reflexivity. Qed.

Lemma string_app_assoc (a b c : string) : (a +:+ b) +:+ c = a +:+ (b +:+ c).
Proof.
  induction a as [|x a IH]; [reflexivity|].
  rewrite !string_app_cons. now rewrite IH.
Qed.

Lemma string_length_app (a b : string) :
  String.length (a +:+ b) = (String.length a + String.length b)%nat.
Proof.
  induction a as [|x a IH]; [reflexivity|].
  rewrite string_app_cons. simpl. now rewrite IH.
Qed.

Lemma parse_string_char (c : ascii) (t : string) :
  parse_string_chars (QuoteJSONString_char c +:+ t) =
  let* (u, r) := parse_string_chars t in Return (String c u, r).
Proof.
  destruct c as [[] [] [] [] [] [] [] []]; reflexivity.
Qed.

Lemma parse_string_quoted (s rest : string) :
  parse_string_chars (QuoteJSONString_chars s +:+ String dquote rest) =
  Return (s, rest).
Proof.
  induction s as [|c s IH]; [reflexivity|].
  change (QuoteJSONString_chars (String c s))
    with (QuoteJSONString_char c +:+ QuoteJSONString_chars s).
  rewrite string_app_assoc, parse_string_char, IH. reflexivity.
Qed.


Lemma delimiter_cases (d : ascii) :
  is_delimiter d = true -> d = ","%char \/ d = "}"%char.
Proof.
  unfold is_delimiter. intros H. apply orb_true_iff in H.
  destruct H as [H|H]; apply Ascii.eqb_eq in H; auto.
Qed.

Lemma take_digits_print (u : Decimal.uint) (d : ascii) (rest : string) :
  is_delimiter d = true ->
  take_digits (string_of_uint u +:+ String d rest) = (u, String d rest).
Proof.
  intros Hd. induction u; simpl string_of_uint;
    rewrite ?string_app_cons, ?string_app_nil.
  1: { destruct (delimiter_cases d Hd) as [-> | ->]; reflexivity. }
  all: match goal with
       | |- take_digits (String ?c ?X) = _ =>
           change (take_digits (String c X))
             with (let '(u, r) := take_digits X in
                   (match digit_of c with Some f => f u | None => Decimal.Nil end, r))
       end; rewrite IHu; reflexivity.
Qed.

Lemma nzhead_not_D0 (d d' : Decimal.uint) : Decimal.nzhead d <> Decimal.D0 d'.
Proof. induction d; simpl; congruence. Qed.

Lemma to_uint_head (p : positive) (u : Decimal.uint) :
  Pos.to_uint p <> Decimal.D0 u.
Proof.
  intros E.
  pose proof (DecimalPos.Unsigned.to_of (Pos.to_uint p)) as H.
  rewrite DecimalPos.Unsigned.of_to in H. simpl in H.
  unfold Decimal.unorm in H. rewrite E in H.
  destruct (Decimal.nzhead (Decimal.D0 u)) eqn:Hn;
    try (symmetry in H; rewrite <- Hn in H; exact (nzhead_not_D0 _ _ H)).
  inversion H; subst.
  apply (DecimalPos.Unsigned.to_uint_nonzero p). exact E.
Qed.

Lemma Number_of_Z_value (i : safe_integer) :
  Number_of_Z (int_value i) = Some (Int i).
Proof.
  destruct i as [z H]. unfold Number_of_Z. simpl.
  assert (G : forall b (e : isSafeInteger z = b),
             b = true ->
             match b as b0 return isSafeInteger z = b0 -> option number with
             | true => fun H0 => Some (Int (SafeInteger z H0))
             | false => fun _ => None
             end e = Some (Int (SafeInteger z H))).
  { intros b e Hb. destruct b; [|discriminate]. now rewrite (proof_irrel e H). }
  apply G. exact H.
Qed.

Lemma parse_unsigned_print (neg : bool) (u : Decimal.uint) (d : ascii)
    (rest : string) :
  is_delimiter d = true ->
  u <> Decimal.Nil ->
  (forall u', u = Decimal.D0 u' -> u' = Decimal.Nil) ->
  parse_unsigned neg (string_of_uint u +:+ String d rest) =
  let z := Z.of_int (if neg then Decimal.Neg u else Decimal.Pos u) in
  if neg && (z =? 0) then Throw OutOfModel
  else match Number_of_Z z with
       | Some n => Return (JNumber n, String d rest)
       | None => Throw OutOfModel
       end.
Proof.
  intros Hd Hnil Hzero. unfold parse_unsigned.
  rewrite (take_digits_print u d rest Hd).
  assert (Hf : starts_fraction_or_exponent (String d rest) = false)
    by (destruct (delimiter_cases d Hd) as [-> | ->]; reflexivity).
  destruct u as [|u'|u'|u'|u'|u'|u'|u'|u'|u'|u']; try congruence;
    try (rewrite Hf; reflexivity).
  rewrite (Hzero u' eq_refl). rewrite Hf. reflexivity.
Qed.

Lemma parse_number_unsigned (u : Decimal.uint) (rest : string) :
  u <> Decimal.Nil ->
  parse_number (string_of_uint u +:+ rest) =
  parse_unsigned false (string_of_uint u +:+ rest).
Proof. destruct u; intros H; try congruence; reflexivity. Qed.

Lemma parse_prim_unsigned (u : Decimal.uint) (rest : string) :
  u <> Decimal.Nil ->
  parse_prim (string_of_uint u +:+ rest) =
  parse_number (string_of_uint u +:+ rest).
Proof. destruct u; intros H; try congruence; reflexivity. Qed.

Lemma skip_ws_unsigned (u : Decimal.uint) (rest : string) :
  u <> Decimal.Nil ->
  skip_ws (string_of_uint u +:+ rest) = string_of_uint u +:+ rest.
Proof. destruct u; intros H; try congruence; reflexivity. Qed.

Lemma to_int_cases (z : Z) :
  (exists u, Z.to_int z = Decimal.Pos u /\ Z.of_int (Decimal.Pos u) = z /\
             u <> Decimal.Nil /\
             (forall u', u = Decimal.D0 u' -> u' = Decimal.Nil)) \/
  (exists u, Z.to_int z = Decimal.Neg u /\ Z.of_int (Decimal.Neg u) = z /\
             (z <? 0) = true /\ u <> Decimal.Nil /\
             (forall u', u = Decimal.D0 u' -> u' = Decimal.Nil)).
Proof.
  pose proof (DecimalZ.of_to z) as Hz.
  destruct z as [|p|p]; simpl in *.
  - left. exists (Decimal.D0 Decimal.Nil). repeat split; congruence.
  - left. eexists; repeat split; try exact Hz.
    + apply DecimalPos.Unsigned.to_uint_nonnil.
    + intros u' E. exfalso. exact (to_uint_head p u' E).
  - right. eexists; repeat split; try exact Hz.
    + apply DecimalPos.Unsigned.to_uint_nonnil.
    + intros u' E. exfalso. exact (to_uint_head p u' E).
Qed.

Lemma parse_prim_number (i : safe_integer) (d : ascii) (rest : string) :
  is_delimiter d = true ->
  parse_prim (Number_toString i +:+ String d rest) =
  Return (JNumber (Int i), String d rest).
Proof.
  intros Hd. unfold Number_toString.
  destruct (to_int_cases (int_value i))
    as [(u & -> & Hz & Hnil & Hzero) | (u & -> & Hz & Hneg & Hnil & Hzero)].
  - rewrite parse_prim_unsigned, parse_number_unsigned by exact Hnil.
    rewrite parse_unsigned_print by assumption.
    cbv zeta. rewrite Hz, Number_of_Z_value. reflexivity.
  - rewrite string_app_cons.
    change (parse_prim (String "-" ?X)) with (parse_unsigned true X).
    rewrite parse_unsigned_print by assumption.
    cbv zeta. rewrite Hz, Number_of_Z_value.
    replace (int_value i =? 0) with false by (symmetry; apply Z.eqb_neq; apply Z.ltb_lt in Hneg; lia).
    reflexivity.
Qed.

Lemma skip_ws_number (i : safe_integer) (rest : string) :
  skip_ws (Number_toString i +:+ rest) = Number_toString i +:+ rest.
Proof.
  unfold Number_toString.
  destruct (to_int_cases (int_value i))
    as [(u & -> & Hz & Hnil & Hzero) | (u & -> & Hz & Hneg & Hnil & Hzero)].
  - now apply skip_ws_unsigned.
  - reflexivity.
Qed.


Lemma QuoteJSONString_app (s rest : string) :
  QuoteJSONString s +:+ rest =
  String dquote (QuoteJSONString_chars s +:+ String dquote rest).
Proof.
  unfold QuoteJSONString. rewrite string_app_cons, string_app_assoc.
  reflexivity.
Qed.

Lemma parse_prim_serialized (v : prim) (d : ascii) (rest : string) :
  roundtrips v = true -> is_delimiter d = true ->
  parse_prim (SerializeJSONProperty v +:+ String d rest) =
  Return (v, String d rest).
Proof.
  intros Hv Hd. destruct v as [|[]|[| | |i]|s]; try discriminate;
    try reflexivity.
  - now apply parse_prim_number.
  - simpl SerializeJSONProperty. rewrite QuoteJSONString_app.
    change (parse_prim (String dquote ?X))
      with (let* (t, r) := parse_string_chars X in Return (JString t, r)).
    rewrite parse_string_quoted. reflexivity.
Qed.

Lemma skip_ws_serialized (v : prim) (rest : string) :
  skip_ws (SerializeJSONProperty v +:+ rest) = SerializeJSONProperty v +:+ rest.
Proof.
  destruct v as [|[]|[| | |i]|s]; try reflexivity.
  apply skip_ws_number.
Qed.

Lemma parse_members_step (fuel : nat) (acc : list (string * prim))
    (m : string * prim) (d : ascii) (rest : string) :
  roundtrips m.2 = true -> is_integer_key m.1 = false ->
  is_delimiter d = true ->
  parse_members (S fuel) acc (SerializeJSONMember m +:+ String d rest) =
  if Ascii.eqb d "," then parse_members fuel (SetProperty acc m.1 m.2) rest
  else Return (SetProperty acc m.1 m.2, rest).
Proof.
  destruct m as [k v]. simpl fst. simpl snd. intros Hv Hk Hd.
  unfold SerializeJSONMember. simpl fst. simpl snd.
  rewrite !string_app_assoc, QuoteJSONString_app, string_app_cons, string_app_nil.
  cbn [parse_members].
  change (skip_ws (String dquote ?X)) with (String dquote X).
  change (dquote =? dquote)%char with true. cbv iota.
  rewrite parse_string_quoted. cbn [rbind Return].
  change (skip_ws (String ":" ?X)) with (String ":" X). cbv iota.
  rewrite skip_ws_serialized, parse_prim_serialized by assumption.
  cbn [rbind Return]. rewrite Hk.
  destruct (delimiter_cases d Hd) as [-> | ->]; reflexivity.
Qed.

Lemma SerializeJSONMembers_cons (m m' : string * prim)
    (o : list (string * prim)) :
  SerializeJSONMembers (m :: m' :: o) =
  SerializeJSONMember m +:+ "," +:+ SerializeJSONMembers (m' :: o).
Proof. reflexivity. Qed.


Lemma parse_members_serialized (o : list (string * prim)) :
  forall (fuel : nat) (acc : list (string * prim)) (rest : string),
    o <> [] -> (length o <= fuel)%nat ->
    Forall (fun m => roundtrips m.2 = true /\ is_integer_key m.1 = false) o ->
    parse_members fuel acc (SerializeJSONMembers o +:+ String "}" rest) =
    Return (create_all acc o, rest).
Proof.
  induction o as [|m o IH]; intros fuel acc rest Hne Hfuel Hall;
    [congruence|].
  destruct fuel as [|fuel]; [simpl in Hfuel; lia|].
  apply Forall_cons in Hall as [[Hv Hk] Hall].
  destruct o as [|m' o].
  - simpl SerializeJSONMembers.
    rewrite parse_members_step by auto. reflexivity.
  - rewrite SerializeJSONMembers_cons, !string_app_assoc, string_app_cons,
      string_app_nil.
    rewrite parse_members_step by auto.
    change (("," =? ",")%char) with true. cbv iota.
    rewrite IH; [reflexivity | congruence | simpl in *; lia | exact Hall].
Qed.

Lemma SerializeJSONMembers_head (o : list (string * prim)) :
  o <> [] -> exists t, SerializeJSONMembers o = String dquote t.
Proof.
  destruct o as [|[k v] [|m' o]]; [congruence| |]; intros _.
  - simpl. unfold SerializeJSONMember. simpl.
    rewrite QuoteJSONString_app. eauto.
  - rewrite SerializeJSONMembers_cons. unfold SerializeJSONMember. simpl.
    rewrite QuoteJSONString_app. eauto.
Qed.

Lemma SerializeJSONMembers_length (o : list (string * prim)) :
  (length o <= String.length (SerializeJSONMembers o))%nat.
Proof.
  induction o as [|[k v] o IH]; [simpl; lia|].
  destruct o as [|m' o].
  - simpl SerializeJSONMembers. unfold SerializeJSONMember.
    rewrite QuoteJSONString_app. simpl. lia.
  - rewrite SerializeJSONMembers_cons.
    set (r := SerializeJSONMembers (m' :: o)) in *.
    rewrite !string_length_app. simpl in IH |- *. lia.
Qed.

(** [JSON.parse] reads back what [JSON.stringify] wrote of an object:
    the properties come back in order, each with its value. *)
Lemma JSON_parse_stringify (o : list (string * prim)) :
  Forall (fun m => roundtrips m.2 = true /\ is_integer_key m.1 = false) o ->
  JSON_parse (JSON_stringify (JObject o)) = Return (JObject (create_all [] o)).
Proof.
  intros Hall. destruct (decide (o = [])) as [-> | Hne]; [reflexivity|].
  unfold JSON_stringify, JSON_parse.
  rewrite string_app_cons, string_app_nil.
  change (skip_ws (String "{" ?X)) with (String "{" X). cbv iota.
  destruct (SerializeJSONMembers_head o Hne) as [t Ht].
  pose proof (SerializeJSONMembers_length o) as Hlen.
  rewrite Ht at 1. rewrite string_app_cons.
  change (skip_ws (String dquote ?X)) with (String dquote X). cbv iota.
  rewrite parse_members_serialized; [reflexivity | exact Hne | | exact Hall].
  simpl String.length. rewrite string_length_app. lia.
Qed.


(** * Properties of the asset objects *)

Lemma SerializeJSONProperty_normalize (v : prim) :
  SerializeJSONProperty (normalize v) = SerializeJSONProperty v.
Proof. destruct v as [|b|[| | |i]|s]; reflexivity. Qed.

Lemma stringify_normalize (id : string) (v : prim) (owner org : string) :
  JSON_stringify (JObject (asset_object id (normalize v) owner org)) =
  JSON_stringify (JObject (asset_object id v owner org)).
Proof.
  unfold JSON_stringify, asset_object, SerializeJSONMembers,
    SerializeJSONMember. simpl fst. simpl snd.
  now rewrite SerializeJSONProperty_normalize.
Qed.

Lemma json_number_normalize (n : number) : json_number (normalize (JNumber n)).
Proof. destruct n; [left | left | left | right]; eauto. Qed.

Lemma json_number_roundtrips (v : prim) : json_number v -> roundtrips v = true.
Proof. intros [-> | [i ->]]; reflexivity. Qed.

(** Reading back a stored asset record. *)
Lemma JSON_parse_asset (id : string) (v : prim) (owner org : string) :
  roundtrips v = true ->
  JSON_parse (JSON_stringify (JObject (asset_object id v owner org))) =
  Return (JObject (asset_object id v owner org)).
Proof.
  intros Hv. rewrite JSON_parse_stringify; [reflexivity|].
  unfold asset_object. repeat constructor; assumption.
Qed.

Lemma stringify_nonempty (o : list (string * prim)) :
  JSON_stringify (JObject o) <> "".
Proof. unfold JSON_stringify. rewrite string_app_cons. discriminate. Qed.

(** * Properties of the stub and of the operations *)

Lemma AssetExists_eq (ctx : Context) (assetId : string) (ws : list write) :
  AssetExists ctx assetId ws =
  (Return (match state (stub ctx) !! assetId with
           | Some b => (0 <? Buffer_length b)%nat
           | None => false
           end), ws).
Proof. reflexivity. Qed.

Lemma AssetExists_absent (ctx : Context) (assetId : string) (ws : list write) :
  absent (stub ctx) assetId ->
  AssetExists ctx assetId ws = (Return false, ws).
Proof.
  intros Ha. rewrite AssetExists_eq.
  destruct (state (stub ctx) !! assetId) as [b|] eqn:E; [|reflexivity].
  now rewrite (Ha b E).
Qed.

Lemma AssetExists_present (ctx : Context) (assetId : string) (b : string)
    (ws : list write) :
  state (stub ctx) !! assetId = Some b -> b <> "" ->
  AssetExists ctx assetId ws = (Return true, ws).
Proof.
  intros E Hb. rewrite AssetExists_eq, E.
  destruct b; [congruence | reflexivity].
Qed.

Lemma ReadAsset_absent (ctx : Context) (assetId : string) (ws : list write) :
  absent (stub ctx) assetId ->
  ReadAsset ctx assetId ws = (Throw (NotFound assetId), ws).
Proof.
  intros Ha. unfold ReadAsset, bind.
  now rewrite AssetExists_absent.
Qed.

Lemma ReadAsset_present (ctx : Context) (assetId : string) (b : string)
    (ws : list write) :
  state (stub ctx) !! assetId = Some b -> b <> "" ->
  ReadAsset ctx assetId ws = (Return (Buffer_toString b), ws).
Proof.
  intros E Hb. unfold ReadAsset, bind.
  rewrite (AssetExists_present ctx assetId b ws E Hb).
  unfold getState, ret. cbn [negb Return]. now rewrite E.
Qed.

Lemma setAssetStateBasedEndorsement_single (ctx : Context)
    (assetId org : string) (ws : list write) :
  setAssetStateBasedEndorsement ctx assetId [org] ws =
  (Return tt,
   (ws ++ [SetStateValidationParameter assetId (getPolicy {[ org := MEMBER ]})])%list).
Proof. reflexivity. Qed.

Lemma names_exactly_single (org : string) :
  names_exactly (getPolicy {[ org := MEMBER ]}) org.
Proof. split; [reflexivity|]. simpl. apply map_size_singleton. Qed.

(** A policy that names a single organization is satisfied exactly by
    the endorsements that include that organization. *)
Lemma satisfied_names_exactly (p : SignaturePolicyEnvelope) (org : string)
    (endorsers : gset string) :
  names_exactly p org -> (satisfied p endorsers = true <-> org ∈ endorsers).
Proof.
  intros [Hid Hn]. unfold satisfied. rewrite Hid, Hn, dom_singleton_L.
  rewrite bool_decide_eq_true.
  pose proof (filter_singleton_L (C:=gset string)
                (fun o => o ∈ endorsers) org) as F.
  rewrite F. clear F.
  destruct (decide (org ∈ endorsers)) as [Hin | Hout].
  - rewrite size_singleton. split; [intros _; exact Hin | intros _; lia].
  - rewrite size_empty. split; [lia | tauto].
Qed.

Lemma CreateAsset_absent (ctx : Context) (assetId : string) (value : number)
    (owner : string) (ws : list write) :
  absent (stub ctx) assetId ->
  CreateAsset ctx assetId value owner ws =
  (Return tt,
   (ws ++ [PutState assetId
             (Buffer_from (JSON_stringify (JObject
                (asset_object assetId (JNumber value) owner (clientIdentity ctx)))));
           SetStateValidationParameter assetId
             (getPolicy {[ clientIdentity ctx := MEMBER ]})])%list).
Proof.
  intros Ha. unfold CreateAsset, bind.
  rewrite AssetExists_absent by exact Ha.
  cbn [Return]. unfold putState, lift.
  change (read_string _ "ID") with (@Return string assetId).
  cbn [Return]. rewrite setAssetStateBasedEndorsement_single.
  now rewrite <- app_assoc.
Qed.

Lemma CreateAsset_present (ctx : Context) (assetId : string) (b : string)
    (value : number) (owner : string) (ws : list write) :
  state (stub ctx) !! assetId = Some b -> b <> "" ->
  CreateAsset ctx assetId value owner ws = (Throw (AlreadyExists assetId), ws).
Proof.
  intros E Hb. unfold CreateAsset, bind.
  now rewrite (AssetExists_present ctx assetId b ws E Hb).
Qed.

Lemma DeleteAsset_absent (ctx : Context) (assetId : string) (ws : list write) :
  absent (stub ctx) assetId ->
  DeleteAsset ctx assetId ws = (Throw (NotFound assetId), ws).
Proof.
  intros Ha. unfold DeleteAsset, bind. now rewrite AssetExists_absent.
Qed.

Lemma DeleteAsset_present (ctx : Context) (assetId : string) (b : string)
    (ws : list write) :
  state (stub ctx) !! assetId = Some b -> b <> "" ->
  DeleteAsset ctx assetId ws = (Return tt, (ws ++ [DelState assetId])%list).
Proof.
  intros E Hb. unfold DeleteAsset, bind.
  now rewrite (AssetExists_present ctx assetId b ws E Hb).
Qed.

Lemma UpdateAsset_absent (ctx : Context) (assetId : string) (newValue : number)
    (ws : list write) :
  absent (stub ctx) assetId ->
  UpdateAsset ctx assetId newValue ws = (Throw (NotFound assetId), ws).
Proof.
  intros Ha. unfold UpdateAsset, bind. now rewrite ReadAsset_absent.
Qed.

Lemma TransferAsset_absent (ctx : Context) (assetId newOwner newOwnerOrg : string)
    (ws : list write) :
  absent (stub ctx) assetId ->
  TransferAsset ctx assetId newOwner newOwnerOrg ws =
  (Throw (NotFound assetId), ws).
Proof.
  intros Ha. unfold TransferAsset, bind. now rewrite ReadAsset_absent.
Qed.

(** [UpdateAsset] on a key that holds an asset record. *)
Lemma UpdateAsset_stored (ctx : Context) (key id : string) (v : prim)
    (owner org : string) (newValue : number) (ws : list write) :
  roundtrips v = true ->
  state (stub ctx) !! key =
    Some (Buffer_from (JSON_stringify (JObject (asset_object id v owner org)))) ->
  UpdateAsset ctx key newValue ws =
  (Return tt,
   (ws ++ [PutState key
             (Buffer_from (JSON_stringify (JObject
                (asset_object id (JNumber newValue) owner org))))])%list).
Proof.
  intros Hv E. unfold UpdateAsset, bind.
  rewrite (ReadAsset_present ctx key _ ws E) by apply stringify_nonempty.
  cbn [Return]. unfold lift, Buffer_toString, Buffer_from.
  rewrite JSON_parse_asset by exact Hv. reflexivity.
Qed.

(** [TransferAsset] on a key that holds an asset record: the data goes
    under the key, the policy under the record's [ID]. *)
Lemma TransferAsset_stored (ctx : Context) (key id : string) (v : prim)
    (owner org newOwner newOwnerOrg : string) (ws : list write) :
  roundtrips v = true ->
  state (stub ctx) !! key =
    Some (Buffer_from (JSON_stringify (JObject (asset_object id v owner org)))) ->
  TransferAsset ctx key newOwner newOwnerOrg ws =
  (Return tt,
   (ws ++ [PutState key
             (Buffer_from (JSON_stringify (JObject
                (asset_object id v newOwner newOwnerOrg))));
           SetStateValidationParameter id
             (getPolicy {[ newOwnerOrg := MEMBER ]})])%list).
Proof.
  intros Hv E. unfold TransferAsset, bind.
  rewrite (ReadAsset_present ctx key _ ws E) by apply stringify_nonempty.
  cbn [Return]. unfold lift, Buffer_toString, Buffer_from.
  rewrite JSON_parse_asset by exact Hv.
  cbn [assign Return SetProperty asset_object String.eqb Ascii.eqb Bool.eqb].
  unfold putState. cbn [read_string Get asset_object SetProperty String.eqb Ascii.eqb Bool.eqb Return].
  rewrite setAssetStateBasedEndorsement_single.
  now rewrite <- app_assoc.
Qed.

(** * The ledger invariant *)

Lemma absent_or_present (w : WorldState) (key : string) :
  absent w key \/ exists b, state w !! key = Some b /\ b <> "".
Proof.
  destruct (state w !! key) as [b|] eqn:E.
  - destruct (decide (b = "")) as [-> | Hb].
    + left. intros b' Hb'. congruence.
    + right. eauto.
  - left. intros b' Hb'. congruence.
Qed.

Lemma AssetExists_true_inv (ctx : Context) (assetId : string)
    (ws ws' : list write) :
  AssetExists ctx assetId ws = (Return true, ws') ->
  exists b, state (stub ctx) !! assetId = Some b /\ b <> "".
Proof.
  rewrite AssetExists_eq. intros H.
  destruct (state (stub ctx) !! assetId) as [b|]; [|discriminate].
  exists b. split; [reflexivity|]. intros ->. discriminate.
Qed.

Lemma record_at_consistent (w : WorldState) (key : string) (b : string) :
  state w !! key = Some b -> consistent_at w key b ->
  exists v owner org p,
    json_number v /\
    b = Buffer_from (JSON_stringify (JObject (asset_object key v owner org))) /\
    record_at w key = Some (asset_object key v owner org) /\
    metadata w !! key = Some p /\ names_exactly p org.
Proof.
  intros E (v & owner & org & p & Hv & -> & Hm & Hp).
  exists v, owner, org, p. split; [exact Hv|]. split; [reflexivity|].
  split; [|split; assumption].
  unfold record_at. rewrite E. unfold Buffer_toString, Buffer_from.
  now rewrite JSON_parse_asset by (apply json_number_roundtrips; exact Hv).
Qed.

Lemma record_at_stored (w : WorldState) (key id : string) (v : prim)
    (owner org : string) :
  roundtrips v = true ->
  state w !! key =
    Some (Buffer_from (JSON_stringify (JObject (asset_object id v owner org)))) ->
  record_at w key = Some (asset_object id v owner org).
Proof.
  intros Hv E. unfold record_at. rewrite E.
  unfold Buffer_toString, Buffer_from.
  now rewrite JSON_parse_asset by exact Hv.
Qed.

Section Invariant.

Variable drop : bool.

Lemma state_commit_pair (w : WorldState) (key : string) (b : string)
    (p : SignaturePolicyEnvelope) :
  state (commit drop w [PutState key b; SetStateValidationParameter key p])
    !! key = Some b.
Proof. cbn [commit foldl apply_write state]. apply lookup_insert_eq. Qed.

Lemma metadata_commit_pair (w : WorldState) (key : string) (b : string)
    (p : SignaturePolicyEnvelope) :
  metadata (commit drop w [PutState key b; SetStateValidationParameter key p])
    !! key = Some p.
Proof. cbn [commit foldl apply_write metadata]. apply lookup_insert_eq. Qed.

Lemma state_commit_data (w : WorldState) (key : string) (b : string) :
  state (commit drop w [PutState key b]) !! key = Some b.
Proof. cbn [commit foldl apply_write state]. apply lookup_insert_eq. Qed.

Lemma consistent_genesis : consistent genesis.
Proof. intros key b H. simpl in H. rewrite lookup_empty in H. discriminate. Qed.

(** Writing an asset record and the policy of its owner under the same
    key keeps the ledger consistent. *)
Lemma consistent_put_pair (w : WorldState) (key : string) (v : prim)
    (owner org : string) :
  json_number (normalize v) ->
  consistent w ->
  consistent
    (commit drop w
       [PutState key
          (Buffer_from (JSON_stringify (JObject (asset_object key v owner org))));
        SetStateValidationParameter key (getPolicy {[ org := MEMBER ]})]).
Proof.
  intros Hv Hc k b Hk. simpl in Hk.
  destruct (decide (k = key)) as [-> | Hne].
  - rewrite lookup_insert_eq in Hk. injection Hk as <-.
    exists (normalize v), owner, org, (getPolicy {[ org := MEMBER ]}).
    split; [exact Hv|]. split; [now rewrite stringify_normalize|].
    split; [apply lookup_insert_eq | apply names_exactly_single].
  - rewrite lookup_insert_ne in Hk by congruence.
    destruct (Hc k b Hk) as (v' & owner' & org' & p & Hv' & Hb & Hm & Hp).
    exists v', owner', org', p. split; [exact Hv'|]. split; [exact Hb|].
    split; [|exact Hp].
    simpl. rewrite lookup_insert_ne by congruence. exact Hm.
Qed.

(** Rewriting the record under a key with the owner organization its
    policy names, and no policy write, keeps the ledger consistent. *)
Lemma consistent_put_data (w : WorldState) (key : string) (v : prim)
    (owner org : string) (p : SignaturePolicyEnvelope) :
  json_number (normalize v) ->
  consistent w ->
  metadata w !! key = Some p -> names_exactly p org ->
  consistent
    (commit drop w
       [PutState key
          (Buffer_from (JSON_stringify (JObject (asset_object key v owner org))))]).
Proof.
  intros Hv Hc Hm Hp k b Hk. simpl in Hk.
  destruct (decide (k = key)) as [-> | Hne].
  - rewrite lookup_insert_eq in Hk. injection Hk as <-.
    exists (normalize v), owner, org, p.
    split; [exact Hv|]. split; [now rewrite stringify_normalize|].
    split; [exact Hm | exact Hp].
  - rewrite lookup_insert_ne in Hk by congruence.
    destruct (Hc k b Hk) as (v0 & owner0 & org0 & p0 & Hv0 & Hb & Hm0 & Hp0).
    exists v0, owner0, org0, p0. auto.
Qed.

Lemma consistent_delete (w : WorldState) (key : string) :
  consistent w -> consistent (commit drop w [DelState key]).
Proof.
  intros Hc k b Hk. simpl in Hk.
  destruct (decide (k = key)) as [-> | Hne].
  - rewrite lookup_delete_eq in Hk. discriminate.
  - rewrite lookup_delete_ne in Hk by congruence.
    destruct (Hc k b Hk) as (v0 & owner0 & org0 & p0 & Hv0 & Hb & Hm0 & Hp0).
    exists v0, owner0, org0, p0. split; [exact Hv0|]. split; [exact Hb|].
    split; [|exact Hp0].
    simpl. destruct drop; [|exact Hm0].
    rewrite lookup_delete_ne by congruence. exact Hm0.
Qed.

Lemma json_number_normalize_id (v : prim) :
  json_number v -> json_number (normalize v).
Proof. intros [-> | [i ->]]; [left | right]; eauto. Qed.

(** Every transaction that returns keeps the ledger consistent. *)
Lemma transact_consistent (w w' : WorldState) (mspid : string)
    (i : invocation) :
  consistent w -> transact drop mspid i w = Some w' -> consistent w'.
Proof.
  intros Hc. unfold transact.
  set (ctx := context w mspid).
  destruct i as [id value owner | id | id newValue | id | id newOwner newOrg | id];
    cbn [invoke];
    destruct (absent_or_present w id) as [Ha | (b & E & Hb)].
  - rewrite (CreateAsset_absent ctx id value owner []) by exact Ha.
    intros [= <-]. apply consistent_put_pair; [|exact Hc].
    apply json_number_normalize.
  - rewrite (CreateAsset_present ctx id b value owner [] E Hb). discriminate.
  - unfold bind. rewrite (ReadAsset_absent ctx id []) by exact Ha. discriminate.
  - unfold bind. rewrite (ReadAsset_present ctx id b [] E Hb).
    intros [= <-]. exact Hc.
  - rewrite (UpdateAsset_absent ctx id newValue []) by exact Ha. discriminate.
  - destruct (Hc id b E) as (v & owner & org & p & Hv & -> & Hm & Hp).
    rewrite (UpdateAsset_stored ctx id id v owner org newValue [])
      by (try apply json_number_roundtrips; assumption).
    intros [= <-]. eapply consistent_put_data; eauto.
    apply json_number_normalize.
  - rewrite (DeleteAsset_absent ctx id []) by exact Ha. discriminate.
  - rewrite (DeleteAsset_present ctx id b [] E Hb).
    intros [= <-]. now apply consistent_delete.
  - rewrite (TransferAsset_absent ctx id newOwner newOrg []) by exact Ha.
    discriminate.
  - destruct (Hc id b E) as (v & owner & org & p & Hv & -> & Hm & Hp).
    rewrite (TransferAsset_stored ctx id id v owner org newOwner newOrg [])
      by (try apply json_number_roundtrips; assumption).
    intros [= <-]. apply consistent_put_pair; [|exact Hc].
    now apply json_number_normalize_id.
  - intros [= <-]. exact Hc.
  - intros [= <-]. exact Hc.
Qed.

Lemma reachable_consistent (w : WorldState) :
  reachable drop w -> consistent w.
Proof.
  induction 1 as [|w w' mspid i _ IH Ht].
  - apply consistent_genesis.
  - exact (transact_consistent w w' mspid i IH Ht).
Qed.

End Invariant.

(** * Properties of the policy builder *)

Lemma dom_add_all (neworgs : list string) :
  forall orgs : gmap string MSPRoleType,
    dom (foldl (fun orgs neworg => <[neworg := MEMBER]> orgs) orgs neworgs) =
    dom orgs ∪ list_to_set neworgs.
Proof.
  induction neworgs as [|org neworgs IH]; intros orgs; simpl.
  - now rewrite union_empty_r_L.
  - rewrite IH, dom_insert_L.
    rewrite (comm_L (∪) {[org]} (dom orgs)).
    now rewrite (assoc_L (∪)).
Qed.

Lemma roles_add_all (neworgs : list string) :
  forall orgs : gmap string MSPRoleType,
    (forall org r, orgs !! org = Some r -> r = MEMBER) ->
    forall org r,
      foldl (fun orgs neworg => <[neworg := MEMBER]> orgs) orgs neworgs !! org
        = Some r ->
      r = MEMBER.
Proof.
  induction neworgs as [|o neworgs IH]; intros orgs Horgs org r; simpl.
  - apply Horgs.
  - apply IH. intros org' r' H.
    destruct (decide (org' = o)) as [-> | Hne].
    + rewrite lookup_insert_eq in H. congruence.
    + rewrite lookup_insert_ne in H by congruence. eauto.
Qed.

(** An envelope built by [getPolicy] over a map that lists at least one
    organization is satisfied only when a listed organization endorsed. *)
Lemma satisfied_some_listed (orgs : gmap string MSPRoleType)
    (endorsers : gset string) :
  orgs <> ∅ -> satisfied (getPolicy orgs) endorsers = true ->
  exists org, org ∈ dom orgs /\ org ∈ endorsers.
Proof.
  intros Hne Hs. unfold satisfied in Hs. apply bool_decide_eq_true in Hs.
  simpl in Hs.
  assert (Hpos : (0 < size orgs)%nat).
  { destruct (decide (size orgs = 0%nat)) as [Hz | Hnz]; [|lia].
    apply map_size_empty_iff in Hz. contradiction. }
  pose proof (size_pos_elem_of (C:=gset string)
                (filter (fun org => org ∈ endorsers) (dom orgs))) as Hex.
  destruct Hex as [org Horg]; [lia|].
  apply elem_of_filter in Horg. exists org. tauto.
Qed.

(** * The claims *)

Section Claims.

Variable drop : bool.




(** C4.  For a key that holds no record, [ReadAsset], [UpdateAsset],
    [DeleteAsset] and [TransferAsset] each throw the not-found error and
    record no write; whatever [ReadAsset] throws, [UpdateAsset] and
    [TransferAsset] throw, having done nothing else. *)
Theorem missing_asset_NotFound (ctx : Context)
    (assetId newOwner newOwnerOrg : string) (newValue : number)
    (ws : list write) :
  absent (stub ctx) assetId ->
  ReadAsset ctx assetId ws = (Throw (NotFound assetId), ws) /\
  UpdateAsset ctx assetId newValue ws = (Throw (NotFound assetId), ws) /\
  DeleteAsset ctx assetId ws = (Throw (NotFound assetId), ws) /\
  TransferAsset ctx assetId newOwner newOwnerOrg ws
    = (Throw (NotFound assetId), ws) /\
  (forall e ws',
     ReadAsset ctx assetId ws = (Throw e, ws') ->
     UpdateAsset ctx assetId newValue ws = (Throw e, ws') /\
     TransferAsset ctx assetId newOwner newOwnerOrg ws = (Throw e, ws')).
Proof.
  intros Ha.
  split; [now apply ReadAsset_absent|].
  split; [now apply UpdateAsset_absent|].
  split; [now apply DeleteAsset_absent|].
  split; [now apply TransferAsset_absent|].
  intros e ws' H. unfold UpdateAsset, TransferAsset, bind.
  rewrite H. split; reflexivity.
Qed.

(** C5.  For a key that holds a record, [CreateAsset] throws the
    already-exists error whatever its other arguments and its caller, and
    records no write: the transaction fails and the ledger stays as it
    is. *)
Theorem CreateAsset_existing_AlreadyExists (w : WorldState)
    (mspid assetId owner : string) (value : number) (ws : list write) :
  AssetExists (context w mspid) assetId ws = (Return true, ws) ->
  CreateAsset (context w mspid) assetId value owner ws
    = (Throw (AlreadyExists assetId), ws) /\
  transact drop mspid (InvokeCreateAsset assetId value owner) w = None.
Proof.
  intros He. apply AssetExists_true_inv in He as (b & E & Hb).
  split.
  - exact (CreateAsset_present (context w mspid) assetId b value owner ws E Hb).
  - unfold transact. cbn [invoke].
    now rewrite (CreateAsset_present (context w mspid) assetId b value owner
                   [] E Hb).
Qed.


(** C7.  [AssetExists] always returns, never throws and records no
    write; it returns true exactly when the store holds a value for the
    key and that value is not empty. *)
Theorem AssetExists_iff (ctx : Context) (assetId : string) (ws : list write) :
  exists r,
    AssetExists ctx assetId ws = (Return r, ws) /\
    (r = true <->
     exists b, state (stub ctx) !! assetId = Some b /\ b <> "").
Proof.
  rewrite AssetExists_eq. eexists. split; [reflexivity|].
  destruct (state (stub ctx) !! assetId) as [b|].
  - destruct b as [|c b]; simpl; split.
    + discriminate.
    + intros (b' & [= <-] & Hb). congruence.
    + intros _. eexists. split; [reflexivity | discriminate].
    + reflexivity.
  - split; [discriminate|]. intros (b & Hb & _). discriminate.
Qed.




End Claims.

(** * The claims on sample data *)

Lemma reachable_ledger1 : reachable true ledger1.
Proof.
  apply (reachable_step true genesis ledger1 "Org1MSP"
           (InvokeCreateAsset "asset1" hundred "Alice"));
    [apply reachable_genesis | reflexivity].
Defined.

Lemma absent_genesis (key : string) : absent genesis key.
Proof. intros b H. simpl in H. rewrite lookup_empty in H. discriminate. Defined.

(** The scenario of the spec: create, update, transfer, delete. *)
Example scenario :
  exists w1 w2 w3 w4,
    transact true "Org1" (InvokeCreateAsset "asset1" hundred "Alice") genesis
      = Some w1 /\
    metadata w1 !! "asset1" = Some (getPolicy {[ "Org1" := MEMBER ]}) /\
    transact true "Org1" (InvokeUpdateAsset "asset1" two_hundred) w1 = Some w2 /\
    record_at w2 "asset1"
      = Some (asset_object "asset1" (JNumber two_hundred) "Alice" "Org1") /\
    transact true "Org1" (InvokeTransferAsset "asset1" "Bob" "Org2") w2
      = Some w3 /\
    record_at w3 "asset1"
      = Some (asset_object "asset1" (JNumber two_hundred) "Bob" "Org2") /\
    metadata w3 !! "asset1" = Some (getPolicy {[ "Org2" := MEMBER ]}) /\
    transact true "Org2" (InvokeDeleteAsset "asset1") w3 = Some w4 /\
    AssetExists (context w4 "Org2") "asset1" [] = (Return false, []).
Proof. do 4 eexists. repeat split. Qed.

(** White space between tokens is skipped and a repeated key keeps its
    place and takes the last value. *)
Example JSON_parse_repeated_key :
  JSON_parse (" { " +:+ QuoteJSONString "a" +:+ " : -12 , "
              +:+ QuoteJSONString "b" +:+ ":true,"
              +:+ QuoteJSONString "a" +:+ ":null } ")
  = Return (JObject [("a", JNull); ("b", JBoolean true)]).
Proof. reflexivity. Qed.

(** A text with a fraction is outside the embedding; one with a leading
    zero is ill-formed. *)
Example JSON_parse_numbers :
  JSON_parse ("{" +:+ QuoteJSONString "a" +:+ ":1.5}") = Throw OutOfModel /\
  JSON_parse ("{" +:+ QuoteJSONString "a" +:+ ":01}") = Throw SyntaxError.
Proof. split; reflexivity. Qed.

(** Control characters, the quote and the backslash are escaped, and read
    back. *)
Example QuoteJSONString_escapes :
  let s := String "009" (String dquote (String "\" (String "001" "é"))) in
  QuoteJSONString s
    = String dquote ("\t\" +:+ String dquote ("\\\u0001é" +:+ String dquote "")) /\
  parse_string_chars (QuoteJSONString_chars s +:+ String dquote "")
    = Return (s, "").
Proof. split; reflexivity. Qed.





Lemma missing_asset_NotFound_witness :
  let ctx := context genesis "Org1MSP" in
  ReadAsset ctx "asset1" [] = (Throw (NotFound "asset1"), []) /\
  UpdateAsset ctx "asset1" hundred [] = (Throw (NotFound "asset1"), []) /\
  DeleteAsset ctx "asset1" [] = (Throw (NotFound "asset1"), []) /\
  TransferAsset ctx "asset1" "Bob" "Org2MSP" []
    = (Throw (NotFound "asset1"), []) /\
  (forall e ws',
     ReadAsset ctx "asset1" [] = (Throw e, ws') ->
     UpdateAsset ctx "asset1" hundred [] = (Throw e, ws') /\
     TransferAsset ctx "asset1" "Bob" "Org2MSP" [] = (Throw e, ws')).
Proof.
  apply (missing_asset_NotFound (context genesis "Org1MSP") "asset1" "Bob"
           "Org2MSP" hundred []).
  apply absent_genesis.
Defined.

Lemma CreateAsset_existing_AlreadyExists_witness :
  CreateAsset (context ledger1 "Org2MSP") "asset1" two_hundred "Mallory" []
    = (Throw (AlreadyExists "asset1"), []) /\
  transact true "Org2MSP" (InvokeCreateAsset "asset1" two_hundred "Mallory")
    ledger1 = None.
Proof.
  apply (CreateAsset_existing_AlreadyExists true ledger1 "Org2MSP" "asset1"
           "Mallory" two_hundred []).
  reflexivity.
Defined.








(** * Further properties of the operations *)

(** What a returning [UpdateAsset] has written, on any ledger. *)
Lemma UpdateAsset_writes (ctx : Context) (assetId : string) (newValue : number)
    (ws ws' : list write) :
  UpdateAsset ctx assetId newValue ws = (Return tt, ws') ->
  exists b o,
    state (stub ctx) !! assetId = Some b /\ b <> "" /\
    JSON_parse (Buffer_toString b) = Return (JObject o) /\
    ws' = (ws ++ [PutState assetId
                    (Buffer_from (JSON_stringify (JObject
                       (SetProperty o "Value" (JNumber newValue)))))])%list.
Proof.
  destruct (absent_or_present (stub ctx) assetId) as [Ha | (b & E & Hb)].
  - rewrite UpdateAsset_absent by exact Ha. discriminate.
  - unfold UpdateAsset, bind. rewrite (ReadAsset_present ctx assetId b ws E Hb).
    cbn [Return]. unfold lift.
    destruct (JSON_parse (Buffer_toString b)) as [e | [p | o]] eqn:Hp;
      try discriminate.
    cbn [assign Return]. unfold putState. intros [= <-].
    exists b, o. auto.
Qed.

(** What a returning [TransferAsset] has written, on any ledger. *)
Lemma TransferAsset_writes (ctx : Context) (assetId newOwner newOwnerOrg : string)
    (ws ws' : list write) :
  TransferAsset ctx assetId newOwner newOwnerOrg ws = (Return tt, ws') ->
  exists b o recordId,
    state (stub ctx) !! assetId = Some b /\ b <> "" /\
    JSON_parse (Buffer_toString b) = Return (JObject o) /\
    Get (SetProperty (SetProperty o "Owner" (JString newOwner))
           "OwnerOrg" (JString newOwnerOrg)) "ID" = Some (JString recordId) /\
    ws' = (ws ++ [PutState assetId
                    (Buffer_from (JSON_stringify (JObject
                       (SetProperty (SetProperty o "Owner" (JString newOwner))
                          "OwnerOrg" (JString newOwnerOrg)))));
                  SetStateValidationParameter recordId
                    (getPolicy {[ newOwnerOrg := MEMBER ]})])%list.
Proof.
  destruct (absent_or_present (stub ctx) assetId) as [Ha | (b & E & Hb)].
  - rewrite TransferAsset_absent by exact Ha. discriminate.
  - unfold TransferAsset, bind.
    rewrite (ReadAsset_present ctx assetId b ws E Hb).
    cbn [Return]. unfold lift.
    destruct (JSON_parse (Buffer_toString b)) as [e | [p | o]] eqn:Hp;
      try discriminate.
    cbn [assign Return]. unfold putState. cbn [read_string].
    destruct (Get _ "ID") as [[| | |recordId]|] eqn:Hid; try discriminate.
    cbn [Return]. rewrite setAssetStateBasedEndorsement_single.
    rewrite <- app_assoc. intros [= <-].
    exists b, o, recordId. auto.
Qed.

Lemma present_not_absent (w : WorldState) (key : string) :
  present w key -> ~ absent w key.
Proof. intros (b & E & Hb) Ha. exact (Hb (Ha b E)). Qed.

Lemma not_absent_present (w : WorldState) (key : string) :
  ~ absent w key -> present w key.
Proof.
  intros Hn. destruct (absent_or_present w key) as [Ha | Hp];
    [contradiction | exact Hp].
Qed.

(** What a returning invocation has written, on any ledger: nothing for
    the two queries, one data write for [UpdateAsset], one deletion for
    [DeleteAsset], a data write and a policy write for [CreateAsset] and
    [TransferAsset]. *)
Lemma invoke_writes (ctx : Context) (i : invocation) (ws : list write) :
  invoke ctx i [] = (Return tt, ws) ->
  match i with
  | InvokeCreateAsset assetId _ _ =>
      absent (stub ctx) assetId /\
      exists b, b <> "" /\
        ws = [PutState assetId b;
              SetStateValidationParameter assetId
                (getPolicy {[ clientIdentity ctx := MEMBER ]})]
  | InvokeReadAsset assetId => present (stub ctx) assetId /\ ws = []
  | InvokeAssetExists _ => ws = []
  | InvokeUpdateAsset assetId _ =>
      present (stub ctx) assetId /\
      exists b, b <> "" /\ ws = [PutState assetId b]
  | InvokeDeleteAsset assetId =>
      present (stub ctx) assetId /\ ws = [DelState assetId]
  | InvokeTransferAsset assetId _ newOwnerOrg =>
      present (stub ctx) assetId /\
      exists b recordId, b <> "" /\
        ws = [PutState assetId b;
              SetStateValidationParameter recordId
                (getPolicy {[ newOwnerOrg := MEMBER ]})]
  end.
Proof.
  destruct i as [id value owner | id | id newValue | id | id newOwner newOrg | id];
    cbn [invoke].
  - destruct (absent_or_present (stub ctx) id) as [Ha | (b & E & Hb)].
    + rewrite (CreateAsset_absent ctx id value owner []) by exact Ha.
      intros [= <-]. split; [exact Ha|].
      exists (Buffer_from (JSON_stringify (JObject
                (asset_object id (JNumber value) owner (clientIdentity ctx))))).
      split; [exact (stringify_nonempty _) | reflexivity].
    + rewrite (CreateAsset_present ctx id b value owner [] E Hb). discriminate.
  - unfold bind.
    destruct (absent_or_present (stub ctx) id) as [Ha | (b & E & Hb)].
    + rewrite (ReadAsset_absent ctx id []) by exact Ha. discriminate.
    + rewrite (ReadAsset_present ctx id b [] E Hb). intros [= <-].
      split; [exists b; auto | reflexivity].
  - intros H. apply UpdateAsset_writes in H as (b & o & E & Hb & _ & ->).
    split; [exists b; auto|]. eexists. split; [|reflexivity].
    exact (stringify_nonempty _).
  - destruct (absent_or_present (stub ctx) id) as [Ha | (b & E & Hb)].
    + rewrite (DeleteAsset_absent ctx id []) by exact Ha. discriminate.
    + rewrite (DeleteAsset_present ctx id b [] E Hb). intros [= <-].
      split; [exists b; auto | reflexivity].
  - intros H.
    apply TransferAsset_writes in H as (b & o & rid & E & Hb & _ & _ & ->).
    split; [exists b; auto|]. do 2 eexists. split; [|reflexivity].
    exact (stringify_nonempty _).
  - intros [= <-]. reflexivity.
Qed.

(** On a consistent ledger every write of a returning invocation is for
    the key the invocation names, and a policy written names a single
    organization. *)
Lemma invoke_writes_consistent (w : WorldState) (mspid : string)
    (i : invocation) (ws : list write) :
  consistent w ->
  invoke (context w mspid) i [] = (Return tt, ws) ->
  let k := invocation_key i in
  ws = [] \/
  (present w k /\ exists b, b <> "" /\ ws = [PutState k b]) \/
  (present w k /\ ws = [DelState k]) \/
  (exists b org,
     b <> "" /\
     ws = [PutState k b;
           SetStateValidationParameter k (getPolicy {[ org := MEMBER ]})]).
Proof.
  intros Hc H k.
  destruct i as [id value owner | id | id newValue | id | id newOwner newOrg | id];
    pose proof (invoke_writes _ _ _ H) as Hw; cbn [invocation_key] in k;
    subst k.
  - destruct Hw as (_ & b & Hb & ->). right. right. right. eauto.
  - destruct Hw as [_ ->]. auto.
  - destruct Hw as (Hp & b & Hb & ->). right. left. eauto.
  - destruct Hw as (Hp & ->). right. right. left. auto.
  - cbn [invoke] in H. destruct Hw as ((b & E & Hb) & _).
    destruct (Hc id b E) as (v & owner & org & p & Hv & -> & _).
    rewrite (TransferAsset_stored (context w mspid) id id v owner org
               newOwner newOrg [] (json_number_roundtrips v Hv) E) in H.
    injection H as <-. right. right. right. do 2 eexists.
    split; [|reflexivity].
    exact (stringify_nonempty (asset_object id v newOwner newOrg)).
  - left. exact Hw.
Qed.

Lemma roundtrips_normalize (v : prim) : roundtrips (normalize v) = true.
Proof. destruct v as [|b|[| | |i]|s]; reflexivity. Qed.

(** X1.  An operation that throws has recorded no write, on any ledger.  (The
    marker [OutOfModel] is no exception of the program.) *)
Theorem no_write_before_throw (ctx : Context) (i : invocation) (e : exn)
    (ws ws' : list write) :
  invoke ctx i ws = (Throw e, ws') -> e <> OutOfModel -> ws' = ws.
Proof.
  destruct i as [id value owner | id | id newValue | id | id newOwner newOrg | id];
    cbn [invoke]; intros H He.
  - destruct (absent_or_present (stub ctx) id) as [Ha | (b & E & Hb)].
    + rewrite (CreateAsset_absent ctx id value owner ws Ha) in H. discriminate.
    + rewrite (CreateAsset_present ctx id b value owner ws E Hb) in H.
      now injection H.
  - unfold bind in H.
    destruct (absent_or_present (stub ctx) id) as [Ha | (b & E & Hb)].
    + rewrite (ReadAsset_absent ctx id ws Ha) in H. now injection H.
    + rewrite (ReadAsset_present ctx id b ws E Hb) in H. discriminate.
  - destruct (absent_or_present (stub ctx) id) as [Ha | (b & E & Hb)].
    + rewrite (UpdateAsset_absent ctx id newValue ws Ha) in H. now injection H.
    + unfold UpdateAsset, bind in H.
      rewrite (ReadAsset_present ctx id b ws E Hb) in H.
      cbn [Return] in H. unfold lift in H.
      destruct (JSON_parse (Buffer_toString b)) as [e' | [p | o]].
      * now injection H.
      * now injection H.
      * discriminate.
  - destruct (absent_or_present (stub ctx) id) as [Ha | (b & E & Hb)].
    + rewrite (DeleteAsset_absent ctx id ws Ha) in H. now injection H.
    + rewrite (DeleteAsset_present ctx id b ws E Hb) in H. discriminate.
  - destruct (absent_or_present (stub ctx) id) as [Ha | (b & E & Hb)].
    + rewrite (TransferAsset_absent ctx id newOwner newOrg ws Ha) in H.
      now injection H.
    + unfold TransferAsset, bind in H.
      rewrite (ReadAsset_present ctx id b ws E Hb) in H.
      cbn [Return] in H. unfold lift in H.
      destruct (JSON_parse (Buffer_toString b)) as [e' | [p | o]].
      * now injection H.
      * now injection H.
      * cbn [assign Return] in H. unfold putState in H. cbn [read_string] in H.
        destruct (Get _ "ID") as [[| | |recordId]|];
          try (injection H as <- _; congruence).
        cbn [Return] in H.
        rewrite setAssetStateBasedEndorsement_single in H. discriminate.
  - discriminate.
Qed.

Lemma lifecycle_put (w w' : WorldState) (k b key : string) :
  b <> "" -> state w' = <[k := b]> (state w) ->
  (absent w key -> present w' key -> key = k) /\
  (present w key -> absent w' key -> False).
Proof.
  intros Hb Hs. unfold absent, present. rewrite Hs.
  destruct (decide (key = k)) as [-> | Hne].
  - split; [reflexivity|]. intros _ Ha. apply Hb, Ha, lookup_insert_eq.
  - rewrite lookup_insert_ne by congruence. split.
    + intros Ha (b' & E & Hb'). destruct (Hb' (Ha b' E)).
    + intros (b' & E & Hb') Ha. exact (Hb' (Ha b' E)).
Qed.

Lemma lifecycle_delete (w w' : WorldState) (k key : string) :
  state w' = delete k (state w) ->
  (absent w key -> present w' key -> False) /\
  (present w key -> absent w' key -> key = k).
Proof.
  intros Hs. unfold absent, present. rewrite Hs.
  destruct (decide (key = k)) as [-> | Hne].
  - split; [|reflexivity]. intros _ (b' & E & _).
    rewrite lookup_delete_eq in E. discriminate.
  - rewrite lookup_delete_ne by congruence. split.
    + intros Ha (b' & E & Hb'). exact (Hb' (Ha b' E)).
    + intros (b' & E & Hb') Ha. destruct (Hb' (Ha b' E)).
Qed.

Section Further.

Variable drop : bool.

Lemma transact_invoke (w w' : WorldState) (mspid : string) (i : invocation) :
  transact drop mspid i w = Some w' ->
  exists ws,
    invoke (context w mspid) i [] = (Return tt, ws) /\ w' = commit drop w ws.
Proof.
  unfold transact.
  destruct (invoke (context w mspid) i []) as [[e | []] ws]; [discriminate|].
  intros [= <-]. eauto.
Qed.




(** Every transaction that returns keeps the policies single. *)
Lemma transact_policies_single (w w' : WorldState) (mspid : string)
    (i : invocation) :
  consistent w -> policies_single drop w ->
  transact drop mspid i w = Some w' -> policies_single drop w'.
Proof.
  intros Hc Hp Ht. apply transact_invoke in Ht as (ws & Hi & ->).
  destruct (invoke_writes_consistent w mspid i ws Hc Hi)
    as [-> | [(Hk & b & Hb & ->) | [(Hk & ->) | (b & org & Hb & ->)]]];
    set (k := invocation_key i) in *.
  - exact Hp.
  - intros key p Hm. cbn [commit foldl apply_write metadata] in Hm.
    destruct (Hp key p Hm) as [Hn Hpr]. split; [exact Hn|].
    intros Hd. specialize (Hpr Hd). unfold present.
    cbn [commit foldl apply_write state].
    destruct (decide (key = k)) as [-> | Hne].
    + exists b. split; [apply lookup_insert_eq | exact Hb].
    + rewrite lookup_insert_ne by congruence. exact Hpr.
  - intros key p Hm. cbn [commit foldl apply_write metadata] in Hm.
    destruct (Bool.bool_dec drop true) as [Hd | Hd].
    + rewrite Hd in Hm.
      destruct (decide (key = k)) as [-> | Hne];
        [rewrite lookup_delete_eq in Hm; discriminate|].
      rewrite lookup_delete_ne in Hm by congruence.
      destruct (Hp key p Hm) as [Hn Hpr]. split; [exact Hn|].
      intros _. specialize (Hpr Hd). unfold present.
      cbn [commit foldl apply_write state].
      rewrite lookup_delete_ne by congruence. exact Hpr.
    + apply Bool.not_true_is_false in Hd. rewrite Hd in Hm.
      destruct (Hp key p Hm) as [Hn _]. split; [exact Hn|]. congruence.
  - intros key p Hm. cbn [commit foldl apply_write metadata] in Hm.
    unfold present. cbn [commit foldl apply_write state].
    destruct (decide (key = k)) as [-> | Hne].
    + rewrite lookup_insert_eq in Hm. injection Hm as <-. split.
      * exists org. apply names_exactly_single.
      * intros _. exists b. split; [apply lookup_insert_eq | exact Hb].
    + rewrite lookup_insert_ne in Hm by congruence.
      rewrite lookup_insert_ne by congruence. exact (Hp key p Hm).
Qed.


Lemma policy_only_with_record (w : WorldState) (key : string) :
  reachable drop w -> drop = true -> absent w key ->
  metadata w !! key = None.
Proof.
  intros Hr Hd Ha.
  assert (Hp : policies_single drop w).
  { clear Ha. induction Hr as [|w w' mspid i Hr IH Ht].
    - intros k p H. simpl in H. rewrite lookup_empty in H. discriminate.
    - exact (transact_policies_single w w' mspid i
               (reachable_consistent drop w Hr) IH Ht). }
  destruct (metadata w !! key) as [p|] eqn:E; [|reflexivity].
  destruct (Hp key p E) as [_ Hpr].
  destruct (present_not_absent w key (Hpr Hd) Ha).
Qed.

(** X6.  [DeleteAsset] of an existing asset, on any ledger: it returns, having
    recorded the deletion of the key and no policy write; afterwards no
    record exists for the key, for any caller, and [ReadAsset] throws the
    not-found error. *)
Theorem DeleteAsset_effect (w : WorldState) (mspid assetId : string) :
  AssetExists (context w mspid) assetId [] = (Return true, []) ->
  exists w',
    DeleteAsset (context w mspid) assetId [] = (Return tt, [DelState assetId]) /\
    transact drop mspid (InvokeDeleteAsset assetId) w = Some w' /\
    state w' !! assetId = None /\
    (forall m, AssetExists (context w' m) assetId [] = (Return false, [])) /\
    (forall m, ReadAsset (context w' m) assetId []
               = (Throw (NotFound assetId), [])).
Proof.
  intros He. apply AssetExists_true_inv in He as (b & E & Hb).
  pose proof (DeleteAsset_present (context w mspid) assetId b [] E Hb) as Hd.
  exists (commit drop w [DelState assetId]).
  assert (Hn : state (commit drop w [DelState assetId]) !! assetId = None)
    by apply lookup_delete_eq.
  assert (Ha : absent (commit drop w [DelState assetId]) assetId)
    by (intros b' Hb'; congruence).
  split; [exact Hd|]. split.
  { unfold transact. cbn [invoke]. now rewrite Hd. }
  split; [exact Hn|]. split; intros m.
  - now apply AssetExists_absent.
  - now apply ReadAsset_absent.
Qed.

(** X7.  A deleted asset can be created again, by a client of any
    organization: the record then carries that organization and the
    key's policy names it, whatever policy the key had. *)
Theorem create_after_delete (w : WorldState)
    (mspid mspid' assetId owner : string) (value : number) :
  AssetExists (context w mspid) assetId [] = (Return true, []) ->
  exists w1 w2 p,
    transact drop mspid (InvokeDeleteAsset assetId) w = Some w1 /\
    transact drop mspid' (InvokeCreateAsset assetId value owner) w1 = Some w2 /\
    state w2 !! assetId =
      Some (Buffer_from (serialize {| ID := assetId; Value := value;
                                      Owner := owner; OwnerOrg := mspid' |})) /\
    metadata w2 !! assetId = Some p /\ names_exactly p mspid'.
Proof.
  intros He. apply AssetExists_true_inv in He as (b & E & Hb).
  set (w1 := commit drop w [DelState assetId]).
  assert (Ht : transact drop mspid (InvokeDeleteAsset assetId) w = Some w1).
  { unfold transact. cbn [invoke].
    now rewrite (DeleteAsset_present (context w mspid) assetId b [] E Hb). }
  assert (Hn : state w1 !! assetId = None) by apply lookup_delete_eq.
  assert (Ha : absent w1 assetId) by (intros b' Hb'; congruence).
  pose proof (CreateAsset_absent (context w1 mspid') assetId value owner [] Ha)
    as Hcreate.
  exists w1. eexists. exists (getPolicy {[ mspid' := MEMBER ]}).
  split; [exact Ht|]. split.
  { unfold transact. cbn [invoke]. rewrite Hcreate. reflexivity. }
  split; [apply state_commit_pair|].
  split; [apply metadata_commit_pair | apply names_exactly_single].
Qed.


End Further.

(** X9.  The contract never checks who calls.  Whether an invocation returns
    or throws, and what it throws, is the same for every caller; and but
    for [CreateAsset], which records the caller's organization, the
    writes are the same too. *)
Theorem caller_not_checked (w : WorldState) (mspid mspid' : string)
    (i : invocation) (ws : list write) :
  (invoke (context w mspid) i ws).1 = (invoke (context w mspid') i ws).1 /\
  (is_create i = false ->
   invoke (context w mspid) i ws = invoke (context w mspid') i ws).
Proof.
  split; [|destruct i; intros H; try discriminate; reflexivity].
  destruct i as [id value owner | id | id newValue | id | id newOwner newOrg | id];
    try reflexivity.
  cbn [invoke]. destruct (absent_or_present w id) as [Ha | (b & E & Hb)].
  - now rewrite !CreateAsset_absent by exact Ha.
  - now rewrite (CreateAsset_present (context w mspid) id b value owner ws E Hb),
      (CreateAsset_present (context w mspid') id b value owner ws E Hb).
Qed.

(** * How the operations compose *)

Section Composition.

Variable drop : bool.

Lemma transact_UpdateAsset_stored (w : WorldState) (mspid id : string)
    (v : prim) (owner org : string) (newValue : number) :
  state w !! id =
    Some (Buffer_from (JSON_stringify (JObject (asset_object id v owner org)))) ->
  transact drop mspid (InvokeUpdateAsset id newValue) w =
  Some (commit drop w
          [PutState id
             (Buffer_from (JSON_stringify (JObject
                (asset_object id (JNumber newValue) owner org))))]).
Proof.
  intros E. rewrite <- (stringify_normalize id v owner org) in E.
  unfold transact. cbn [invoke].
  now rewrite (UpdateAsset_stored (context w mspid) id id (normalize v) owner
                 org newValue [] (roundtrips_normalize v) E).
Qed.

Lemma transact_TransferAsset_stored (w : WorldState) (mspid id : string)
    (v : prim) (owner org newOwner newOwnerOrg : string) :
  state w !! id =
    Some (Buffer_from (JSON_stringify (JObject (asset_object id v owner org)))) ->
  transact drop mspid (InvokeTransferAsset id newOwner newOwnerOrg) w =
  Some (commit drop w
          [PutState id
             (Buffer_from (JSON_stringify (JObject
                (asset_object id v newOwner newOwnerOrg))));
           SetStateValidationParameter id
             (getPolicy {[ newOwnerOrg := MEMBER ]})]).
Proof.
  intros E. rewrite <- (stringify_normalize id v owner org) in E.
  unfold transact. cbn [invoke].
  rewrite (TransferAsset_stored (context w mspid) id id (normalize v) owner
             org newOwner newOwnerOrg [] (roundtrips_normalize v) E).
  now rewrite stringify_normalize.
Qed.

Lemma reachable_stored (w : WorldState) (mspid id : string) :
  reachable drop w ->
  AssetExists (context w mspid) id [] = (Return true, []) ->
  exists v owner org,
    state w !! id =
      Some (Buffer_from (JSON_stringify (JObject (asset_object id v owner org)))).
Proof.
  intros Hr He. pose proof (reachable_consistent drop w Hr) as Hc.
  apply AssetExists_true_inv in He as (b & E & _).
  destruct (Hc id b E) as (v & owner & org & p & _ & -> & _). eauto.
Qed.




End Composition.

(** * Objects: reading and writing properties *)

Lemma Get_SetProperty_eq (o : list (string * prim)) (k : string) (v : prim) :
  Get (SetProperty o k v) k = Some v.
Proof.
  induction o as [|[k' v'] o IH]; cbn [SetProperty Get].
  - now rewrite String.eqb_refl.
  - destruct (String.eqb k' k) eqn:E; cbn [Get]; rewrite E; auto.
Qed.

Lemma Get_SetProperty_ne (o : list (string * prim)) (k k' : string) (v : prim) :
  k' <> k -> Get (SetProperty o k v) k' = Get o k'.
Proof.
  intros Hne. induction o as [|[k0 v0] o IH]; cbn [SetProperty Get].
  - apply String.eqb_neq in Hne. rewrite String.eqb_sym in Hne.
    now rewrite Hne.
  - destruct (String.eqb k0 k) eqn:E; cbn [Get].
    + apply String.eqb_eq in E. subst k0.
      apply String.eqb_neq in Hne. rewrite String.eqb_sym in Hne.
      now rewrite Hne.
    + now rewrite IH.
Qed.

Lemma SetProperty_fresh (o : list (string * prim)) (k : string) (v : prim) :
  k ∉ keys o -> SetProperty o k v = (o ++ [(k, v)])%list.
Proof.
  induction o as [|[k' v'] o IH]; intros Hk; [reflexivity|].
  cbn [SetProperty]. unfold keys in *. cbn in Hk.
  apply not_elem_of_cons in Hk as [Hne Hk].
  assert (E : String.eqb k' k = false) by (apply String.eqb_neq; congruence).
  rewrite E. cbn. now rewrite IH.
Qed.

Lemma keys_SetProperty (o : list (string * prim)) (k : string) (v : prim) :
  keys (SetProperty o k v) = keys o \/
  ((k ∉ keys o) /\ keys (SetProperty o k v) = (keys o ++ [k])%list).
Proof.
  induction o as [|[k' v'] o IH]; cbn [SetProperty].
  - right. split; [apply not_elem_of_nil | reflexivity].
  - destruct (String.eqb k' k) eqn:E.
    + left. reflexivity.
    + apply String.eqb_neq in E. unfold keys in *. cbn.
      destruct IH as [-> | [Hk ->]]; [left; reflexivity|].
      right. split; [|reflexivity].
      apply not_elem_of_cons. split; [congruence | exact Hk].
Qed.

Lemma plain_SetProperty (o : list (string * prim)) (k : string) (v : prim) :
  plain_object o -> roundtrips v = true -> is_integer_key k = false ->
  plain_object (SetProperty o k v).
Proof.
  intros [Hnd Hall] Hv Hk. split.
  - destruct (keys_SetProperty o k v) as [-> | [Hfresh ->]]; [exact Hnd|].
    apply NoDup_app. split; [exact Hnd|]. split.
    + intros x Hx Hx'. apply list_elem_of_singleton in Hx'. now subst x.
    + apply NoDup_singleton.
  - clear Hnd. induction o as [|[k' v'] o IH]; cbn [SetProperty].
    + repeat constructor; assumption.
    + apply Forall_cons in Hall as [[Hv' Hk'] Hall].
      destruct (String.eqb k' k) eqn:E.
      * constructor; [|exact Hall]. split; [exact Hv | exact Hk'].
      * constructor; [split; assumption | exact (IH Hall)].
Qed.

Lemma create_all_fresh (o : list (string * prim)) :
  forall acc : list (string * prim),
    NoDup (keys (acc ++ o)) -> create_all acc o = (acc ++ o)%list.
Proof.
  induction o as [|[k v] o IH]; intros acc Hnd.
  - now rewrite app_nil_r.
  - unfold create_all. cbn [foldl fst snd].
    fold (create_all (SetProperty acc k v) o).
    assert (Hk : k ∉ keys acc).
    { unfold keys in *. rewrite fmap_app in Hnd.
      apply NoDup_app in Hnd as (_ & Hdis & _).
      intros Hin. apply (Hdis k Hin). cbn. left. }
    rewrite (SetProperty_fresh acc k v Hk).
    rewrite IH; rewrite <- app_assoc; [reflexivity | exact Hnd].
Qed.

(** * The round trip of plain objects *)

Lemma plain_roundtrip (o : list (string * prim)) :
  plain_object o ->
  JSON_parse (JSON_stringify (JObject o)) = Return (JObject o).
Proof.
  intros [Hnd Hall]. rewrite JSON_parse_stringify by exact Hall.
  now rewrite create_all_fresh.
Qed.


(** * What the parser returns *)

Lemma parse_unsigned_roundtrips (neg : bool) (s : string) (v : prim)
    (r : string) :
  parse_unsigned neg s = Return (v, r) -> roundtrips v = true.
Proof.
  unfold parse_unsigned. destruct (take_digits s) as [u r'].
  intros H.
  assert (G : (if starts_fraction_or_exponent r' then Throw OutOfModel
               else
                 let z := Z.of_int (if neg then Decimal.Neg u else Decimal.Pos u) in
                 if neg && (z =? 0) then Throw OutOfModel
                 else match Number_of_Z z with
                      | Some n => Return (JNumber n, r')
                      | None => Throw OutOfModel
                      end) = Return (v, r)).
  { destruct u as [|u'|u'|u'|u'|u'|u'|u'|u'|u'|u']; try exact H;
      try discriminate.
    destruct u'; try exact H; discriminate. }
  clear H. destruct (starts_fraction_or_exponent r'); [discriminate|].
  cbv zeta in G.
  destruct (neg && _); [discriminate|].
  destruct (Number_of_Z _) as [n|] eqn:Hn; [|discriminate].
  injection G as <- _.
  unfold Number_of_Z in Hn.
  revert Hn. generalize (eq_refl (isSafeInteger
    (Z.of_int (if neg then Decimal.Neg u else Decimal.Pos u)))).
  generalize (isSafeInteger
    (Z.of_int (if neg then Decimal.Neg u else Decimal.Pos u))) at 2 3.
  intros b e. destruct b; [|discriminate]. intros [= <-]. reflexivity.
Qed.

Lemma parse_prim_roundtrips (s : string) (v : prim) (r : string) :
  parse_prim s = Return (v, r) -> roundtrips v = true.
Proof.
  unfold parse_prim. destruct s as [|c s']; [discriminate|].
  destruct (Ascii.eqb c dquote).
  { destruct (parse_string_chars s') as [e | [t r']]; [discriminate|].
    intros [= <- _]. reflexivity. }
  destruct (Ascii.eqb c "-" || bool_decide (is_Some (digit_of c))).
  { unfold parse_number. destruct (Ascii.eqb c "-");
      apply parse_unsigned_roundtrips. }
  destruct (Ascii.eqb c "{" || Ascii.eqb c "["); [discriminate|].
  intros H.
  repeat match type of H with
         | match ?x with _ => _ end = _ => destruct x; try discriminate
         end.
  all: injection H as <- _; reflexivity.
Qed.

Lemma parse_members_plain (fuel : nat) :
  forall (acc : list (string * prim)) (s : string) (o : list (string * prim))
         (r : string),
    plain_object acc ->
    parse_members fuel acc s = Return (o, r) -> plain_object o.
Proof.
  induction fuel as [|fuel IH]; intros acc s o r Hacc H; [discriminate|].
  cbn [parse_members] in H.
  destruct (skip_ws s) as [|c s1]; [discriminate|].
  destruct (Ascii.eqb c dquote); [|discriminate].
  destruct (parse_string_chars s1) as [e | [k s2]]; [discriminate|].
  cbn [rbind] in H.
  destruct (skip_ws s2) as [|c2 s3]; [discriminate|].
  destruct (Ascii.eqb c2 ":") eqn:Hc2.
  2: { destruct c2 as [[] [] [] [] [] [] [] []]; try discriminate H;
       discriminate Hc2. }
  apply Ascii.eqb_eq in Hc2. subst c2. cbv iota in H.
  destruct (parse_prim (skip_ws s3)) as [e | [v s4]] eqn:Hv; [discriminate|].
  cbn [rbind] in H.
  destruct (is_integer_key k) eqn:Hk; [discriminate|].
  assert (Hacc' : plain_object (SetProperty acc k v)).
  { apply plain_SetProperty; try assumption.
    exact (parse_prim_roundtrips _ _ _ Hv). }
  destruct (skip_ws s4) as [|c5 s5]; [discriminate|].
  destruct (Ascii.eqb c5 ",") eqn:Hcomma.
  { apply Ascii.eqb_eq in Hcomma. subst c5. cbv iota in H.
    exact (IH _ _ _ _ Hacc' H). }
  destruct (Ascii.eqb c5 "}") eqn:Hbrace.
  { apply Ascii.eqb_eq in Hbrace. subst c5. cbv iota in H.
    injection H as <- _. exact Hacc'. }
  destruct c5 as [[] [] [] [] [] [] [] []]; try discriminate H;
    discriminate.
Qed.

(** Every object [JSON.parse] returns is plain. *)
Lemma JSON_parse_plain (text : string) (o : list (string * prim)) :
  JSON_parse text = Return (JObject o) -> plain_object o.
Proof.
  assert (Hnil : plain_object []) by (split; constructor).
  assert (Hend : forall v s, parse_end v s = Return (JObject o) -> v = JObject o).
  { intros v s. unfold parse_end. destruct (skip_ws s); [|discriminate].
    now intros [= ->]. }
  assert (Hprim : forall s,
             (let* (p, r) := parse_prim s in parse_end (JPrimitive p) r)
               = Return (JObject o) -> False).
  { intros s. destruct (parse_prim s) as [e | [p r]]; [discriminate|].
    cbn [rbind]. intros H. apply Hend in H. discriminate. }
  unfold JSON_parse. destruct (skip_ws text) as [|c s1] eqn:Hs.
  { intros H. destruct (Hprim _ H). }
  destruct (Ascii.eqb c "{") eqn:Hc.
  2: { intros H. exfalso.
       destruct c as [[] [] [] [] [] [] [] []]; try exact (Hprim _ H);
         discriminate Hc. }
  apply Ascii.eqb_eq in Hc. subst c. cbv iota.
  assert (Hmem : (let* (o0, s2) := parse_members (String.length text) [] s1 in
                  parse_end (JObject o0) s2) = Return (JObject o) ->
                 plain_object o).
  { destruct (parse_members (String.length text) [] s1) as [e | [o0 s2]] eqn:Hm;
      [discriminate|].
    cbn [rbind]. intros H. apply Hend in H. injection H as ->.
    exact (parse_members_plain _ _ _ _ _ Hnil Hm). }
  destruct (skip_ws s1) as [|c2 s2]; [exact Hmem|].
  destruct (Ascii.eqb c2 "}") eqn:Hc2.
  - apply Ascii.eqb_eq in Hc2. subst c2. cbv iota.
    intros H. apply Hend in H. injection H as <-. exact Hnil.
  - destruct c2 as [[] [] [] [] [] [] [] []]; try exact Hmem; discriminate Hc2.
Qed.


(** * Update and transfer of any stored object *)

Section AnyLedger.

Variable drop : bool.



End AnyLedger.

(** * Reading, endorsement, and creation undone *)


Section Endorsement.

Variable drop : bool.


End Endorsement.


(** * The further properties on sample data *)

Lemma reachable_ledger2 : reachable true ledger2.
Proof.
  apply (reachable_step true ledger1 ledger2 "Org2MSP"
           (InvokeCreateAsset "asset2" two_hundred "Carol"));
    [exact reachable_ledger1 | reflexivity].
Defined.

Lemma plain_annotated_object : plain_object annotated_object.
Proof.
  split.
  - refine (bool_decide_unpack _ _). vm_compute. exact I.
  - repeat constructor.
Defined.

Lemma no_write_before_throw_witness :
  (invoke (context garbled "Org1MSP") (InvokeUpdateAsset "asset1" hundred) []).1
    = Throw SyntaxError /\
  (invoke (context garbled "Org1MSP") (InvokeUpdateAsset "asset1" hundred) []).2
    = [].
Proof.
  split; [reflexivity|].
  apply (no_write_before_throw (context garbled "Org1MSP")
           (InvokeUpdateAsset "asset1" hundred) SyntaxError []);
    [reflexivity | discriminate].
Defined.





Lemma DeleteAsset_effect_witness :
  exists w',
    DeleteAsset (context ledger1 "Org1MSP") "asset1" []
      = (Return tt, [DelState "asset1"]) /\
    transact true "Org1MSP" (InvokeDeleteAsset "asset1") ledger1 = Some w' /\
    state w' !! "asset1" = None /\
    (forall m, AssetExists (context w' m) "asset1" [] = (Return false, [])) /\
    (forall m, ReadAsset (context w' m) "asset1" []
               = (Throw (NotFound "asset1"), [])).
Proof.
  apply (DeleteAsset_effect true ledger1 "Org1MSP" "asset1"). reflexivity.
Defined.

Lemma create_after_delete_witness :
  exists w1 w2 p,
    transact false "Org1MSP" (InvokeDeleteAsset "asset1") ledger1 = Some w1 /\
    transact false "Org2MSP" (InvokeCreateAsset "asset1" two_hundred "Carol") w1
      = Some w2 /\
    state w2 !! "asset1" =
      Some (Buffer_from (serialize {| ID := "asset1"; Value := two_hundred;
                                      Owner := "Carol"; OwnerOrg := "Org2MSP" |})) /\
    metadata w2 !! "asset1" = Some p /\ names_exactly p "Org2MSP".
Proof.
  apply (create_after_delete false ledger1 "Org1MSP" "Org2MSP" "asset1" "Carol"
           two_hundred).
  reflexivity.
Defined.


Lemma caller_not_checked_witness :
  invoke (context ledger1 "Org1MSP")
    (InvokeTransferAsset "asset1" "Mallory" "Org2MSP") []
  = invoke (context ledger1 "Org2MSP")
      (InvokeTransferAsset "asset1" "Mallory" "Org2MSP") [].
Proof.
  apply (caller_not_checked ledger1 "Org1MSP" "Org2MSP"
           (InvokeTransferAsset "asset1" "Mallory" "Org2MSP") []).
  reflexivity.
Defined.









